(** * schedula: the graph model and the function wrappers of the dispatcher

    A shallow embedding of [schedula/__init__.py] (class [Dispatcher]) and of
    [schedula/utils/dsp.py] (the dictionary helpers, [SubDispatch] and
    [SubDispatchFunction]).

    Python dictionaries are finite maps ([gmap]); a keyword dictionary whose
    iteration order is observed is an association list.  Methods that mutate
    the dispatcher and may raise are functions from the dispatcher to an
    outcome paired with the dispatcher as the call leaves it: Python keeps
    the mutations done before a [raise]. *)

From stdpp Require Import gmap strings list fin_maps pretty sorting.

Local Open Scope string_scope.
Local Open Scope list_scope.

(** ** Node identifiers

    Modelled from the spec: the reserved ids of [schedula/utils/cst.py] (not
    among the sources).  A [Token] is a [str] subclass that compares by
    identity, so a token is never equal to a plain string. *)

Inductive Token := START | SINK | SELF | PLOT | END | EMPTY | NONE.

Inductive node_id :=
  | Tok (t : Token)
  | Str (s : string).

Coercion Str : string >-> node_id.

#[global] Instance Token_eq_dec : EqDecision Token.
Proof. solve_decision. Defined.

#[global] Instance node_id_eq_dec : EqDecision node_id.
Proof. solve_decision. Defined.

Definition Token_to_nat (t : Token) : nat :=
  match t with
  | START => 0 | SINK => 1 | SELF => 2 | PLOT => 3
  | END => 4 | EMPTY => 5 | NONE => 6
  end.

Definition Token_of_nat (n : nat) : Token :=
  match n with
  | 0 => START | 1 => SINK | 2 => SELF | 3 => PLOT
  | 4 => END | 5 => EMPTY | _ => NONE
  end.

#[global] Instance Token_countable : Countable Token.
Proof. by apply (inj_countable' Token_to_nat Token_of_nat); intros []. Defined.

#[global] Instance node_id_countable : Countable node_id.
Proof.
  apply (inj_countable'
    (λ i, match i with Tok t => inl t | Str s => inr s end)
    (λ x, match x with inl t => Tok t | inr s => Str s end)).
  by intros [].
Defined.

(** The characters of a token, as [str.format] and the string order see
    them. *)
Definition Token_str (t : Token) : string :=
  match t with
  | START => "start" | SINK => "sink" | SELF => "self" | PLOT => "plot"
  | END => "end" | EMPTY => "empty" | NONE => "none"
  end.

Definition id_str (i : node_id) : string :=
  match i with Tok t => Token_str t | Str s => s end.

(** ** Python values *)

Inductive link_type := Child | Parent.

(** A remote link [[dsp_id, dsp]]: the id of the sub-dispatcher node and the
    identity of the parent dispatcher object. *)
Definition remote_link : Type := node_id * positive.

(** The target of a key in a sub-dispatcher I/O map: [str | list[str]]. *)
Inductive io_ids :=
  | One (i : node_id)
  | Many (l : list node_id).

(** Objects the dispatcher module itself puts in a node. *)
Inductive builtin :=
  | Bypass                (* utils.dsp.bypass *)
  | Autoplot_callback     (* utils.drw.autoplot_callback *)
  | Autoplot_function     (* utils.drw.autoplot_function *)
  | Self                  (* the enclosing dispatcher *)
  | Doc (t : Token).      (* t.__doc__ *)

Inductive value :=
  | VNone
  | VBool (b : bool)
  | VNum (z : Z)
  | VStr (s : string)
  | VTok (t : Token)
  | VObj (name : option string) (o : positive)
      (* a callable or another object, compared by identity, with the
         [__name__] of its parent function when it has one *)
  | VBuiltin (b : builtin)
  | VIds (l : list node_id)
  | VIoMap (m : list (node_id * io_ids))
  | VLinks (l : list (remote_link * link_type))
  | VObjs (l : list positive)
  | VIndex (n : nat).

#[global] Instance link_type_eq_dec : EqDecision link_type.
Proof. solve_decision. Defined.
#[global] Instance io_ids_eq_dec : EqDecision io_ids.
Proof. solve_decision. Defined.
#[global] Instance builtin_eq_dec : EqDecision builtin.
Proof. solve_decision. Defined.
#[global] Instance value_eq_dec : EqDecision value.
Proof. solve_decision. Defined.

(** Truth value of an object in a condition ([if x:], [x or y]). *)
Definition truthy (v : value) : bool :=
  match v with
  | VNone => false
  | VBool b => b
  | VNum z => bool_decide (z ≠ 0%Z)
  | VStr s => bool_decide (s ≠ "")
  | VTok _ | VObj _ _ | VBuiltin _ | VIndex _ => true
  | VIds l => bool_decide (l ≠ [])
  | VIoMap m => bool_decide (m ≠ [])
  | VLinks l => bool_decide (l ≠ [])
  | VObjs l => bool_decide (l ≠ [])
  end.

(** Truth value of a key: a token is a non-empty string. *)
Definition id_truthy (i : node_id) : bool :=
  bool_decide (id_str i ≠ "").

(** An attribute dictionary of a node or of an edge. *)
Abbreviation attrs := (gmap string value).

(** ** Exceptions and outcomes *)

Inductive exn :=
  | ValueError_override_function (data_id : node_id)
      (* 'Invalid data id: override function {}' *)
  | ValueError_not_a_data_node (data_id : node_id)
      (* 'Input error: %s is not a data node' *)
  | ValueError_invalid_function_id
      (* 'Invalid function id due to: ...' *)
  | ValueError_invalid_io (input : bool) (u : node_id)
      (* 'Invalid input id: {} is not a data node' / 'Invalid output id: ...' *)
  | KeyError (k : string)
  | KeyError_node (k : node_id)
  | IndexError
  | TypeError
  | NetworkXError (u : node_id) (v : option node_id).

Inductive res (A : Type) :=
  | Ok (a : A)
  | Raise (e : exn).
Arguments Ok {A} a.
Arguments Raise {A} e.

(** ** The directed graph ([networkx.DiGraph], 1.x)

    [node] is the node dictionary; [edge] holds the attribute dictionary of
    every edge (the [succ] and [pred] dictionaries of networkx mirror each
    other and are both read off it). *)

Record DiGraph := mkDiGraph {
  node : gmap node_id attrs;
  edge : gmap (node_id * node_id) attrs
}.

Definition DiGraph_new : DiGraph := mkDiGraph ∅ ∅.

Definition has_node (g : DiGraph) (n : node_id) : bool :=
  bool_decide (is_Some (node g !! n)).

(** [add_node(n, attr_dict)]: a new node gets [attr_dict]; the attributes
    of an existing node are updated with it. *)
Definition add_node (n : node_id) (attr_dict : attrs) (g : DiGraph) : DiGraph :=
  match node g !! n with
  | None => mkDiGraph (<[n := attr_dict]> (node g)) (edge g)
  | Some old => mkDiGraph (<[n := attr_dict ∪ old]> (node g)) (edge g)
  end.

(** [add_edge(u, v, **attr)]: missing end points are created without
    attributes; the attributes of an existing edge are updated. *)
Definition touch_node (n : node_id) (nd : gmap node_id attrs) : gmap node_id attrs :=
  match nd !! n with
  | None => <[n := ∅]> nd
  | Some _ => nd
  end.

Definition add_edge (u v : node_id) (attr : attrs) (g : DiGraph) : DiGraph :=
  mkDiGraph (touch_node v (touch_node u (node g)))
            (<[(u, v) := attr ∪ default ∅ (edge g !! (u, v))]> (edge g)).

Definition incident (n : node_id) (e : node_id * node_id) : Prop :=
  e.1 = n ∨ e.2 = n.

#[global] Instance incident_dec n e : Decision (incident n e).
Proof. unfold incident. apply _. Defined.

Definition drop_node (n : node_id) (g : DiGraph) : DiGraph :=
  mkDiGraph (delete n (node g))
            (filter (λ kv, ¬ incident n kv.1) (edge g)).

(** [remove_node(n)] raises when [n] is not a node. *)
Definition remove_node (n : node_id) (g : DiGraph) : res DiGraph :=
  if has_node g n then Ok (drop_node n g) else Raise (NetworkXError n None).

(** [remove_nodes_from(nodes)] skips what is not a node. *)
Definition remove_nodes_from (ns : list node_id) (g : DiGraph) : DiGraph :=
  foldl (λ g n, drop_node n g) g ns.

(** [remove_edge(u, v)] raises when the edge is not in the graph. *)
Definition remove_edge (u v : node_id) (g : DiGraph) : res DiGraph :=
  match edge g !! (u, v) with
  | Some _ => Ok (mkDiGraph (node g) (delete (u, v) (edge g)))
  | None => Raise (NetworkXError u (Some v))
  end.

(** [subgraph(nbunch)]: the nodes of [nbunch] that are in the graph and the
    edges between them. *)
Definition subgraph (nbunch : list node_id) (g : DiGraph) : DiGraph :=
  mkDiGraph (filter (λ kv, kv.1 ∈ nbunch) (node g))
            (filter (λ kv, kv.1.1 ∈ nbunch ∧ kv.1.2 ∈ nbunch) (edge g)).

Definition out_degree (g : DiGraph) (n : node_id) : nat :=
  size (filter (λ kv, kv.1.1 = n) (edge g)).

Definition in_degree (g : DiGraph) (n : node_id) : nat :=
  size (filter (λ kv, kv.1.2 = n) (edge g)).

(** [isolates(G)]: the nodes of degree zero. *)
Definition isolates (g : DiGraph) : list node_id :=
  filter (λ n, out_degree g n + in_degree g n = 0) (elements (dom (node g))).

(** ** The dispatcher *)

(** An entry of [default_values]: [{'value': v, 'initial_dist': d}]. *)
Record default_entry := mkDefault {
  dv_value : value;
  initial_dist : value
}.

#[global] Instance default_entry_eq_dec : EqDecision default_entry.
Proof. solve_decision. Defined.

(** The events of the process ([threading.Event]), each with its flag. *)
Abbreviation loc := positive.

Record Dispatcher := mkDispatcher {
  dmap : DiGraph;                         (* self.dmap; self.nodes is dmap.node *)
  name : string;
  doc : string;                           (* self.__doc__ *)
  default_values : gmap node_id default_entry;
  weight : string;
  raises_ : bool;                         (* self.raises *)
  stopper : loc;
  counter : nat                           (* the next value of self.counter() *)
}.

Definition nodes (d : Dispatcher) : gmap node_id attrs := node (dmap d).

Definition with_dmap (g : DiGraph) (d : Dispatcher) : Dispatcher :=
  mkDispatcher g (name d) (doc d) (default_values d) (weight d) (raises_ d)
               (stopper d) (counter d).

Definition with_default_values (dv : gmap node_id default_entry) (d : Dispatcher) : Dispatcher :=
  mkDispatcher (dmap d) (name d) (doc d) dv (weight d) (raises_ d)
               (stopper d) (counter d).

Definition with_counter (c : nat) (d : Dispatcher) : Dispatcher :=
  mkDispatcher (dmap d) (name d) (doc d) (default_values d) (weight d)
               (raises_ d) (stopper d) c.

Definition with_weight (w : string) (d : Dispatcher) : Dispatcher :=
  mkDispatcher (dmap d) (name d) (doc d) (default_values d) w (raises_ d)
               (stopper d) (counter d).

(** A method of the dispatcher: an outcome and the dispatcher afterwards. *)
Definition M (A : Type) : Type := Dispatcher → res A * Dispatcher.

Definition ret {A} (a : A) : M A := λ d, (Ok a, d).
Definition raise {A} (e : exn) : M A := λ d, (Raise e, d).
Definition bind {A B} (m : M A) (k : A → M B) : M B :=
  λ d, match m d with
       | (Ok a, d') => k a d'
       | (Raise e, d') => (Raise e, d')
       end.
Definition get : M Dispatcher := λ d, (Ok d, d).
Definition modify (f : Dispatcher → Dispatcher) : M unit := λ d, (Ok tt, f d).

Notation "x ←ᴹ m ; k" := (bind m (λ x, k))
  (at level 100, m at next level, right associativity, only parsing).
Notation "m ;;ᴹ k" := (bind m (λ _, k))
  (at level 100, right associativity, only parsing).

(** [self.counter()]. *)
Definition next_index : M nat :=
  λ d, (Ok (counter d), with_counter (S (counter d)) d).

(** The type of a node: [self.dmap.node[n]['type']], with the two
    [KeyError]s it can raise. *)
Definition node_type (g : DiGraph) (n : node_id) : res value :=
  match node g !! n with
  | None => Raise (KeyError_node n)
  | Some a =>
      match a !! "type" with
      | None => Raise (KeyError "type")
      | Some t => Ok t
      end
  end.

(** *** [Dispatcher.set_default_value] *)

Definition set_default_value (data_id : node_id) (v : value) (dist : value)
  : M unit :=
  λ d,
    match node_type (dmap d) data_id with
    | Ok t =>
        if decide (t = VStr "data") then
          if decide (v = VTok EMPTY)
          then (Ok tt, with_default_values (delete data_id (default_values d)) d)
          else (Ok tt, with_default_values
                         (<[data_id := mkDefault v dist]> (default_values d)) d)
        else (Raise (ValueError_not_a_data_node data_id), d)
    | Raise _ => (Raise (ValueError_not_a_data_node data_id), d)
    end.

(** *** [get_unused_node_id]

    Modelled from the spec: [schedula/utils/alg.py] is not among the
    sources.  [add_data] "auto-generates an unused id if absent"; the
    docstring of [add_data] gives the shape of the generated ids
    (['unknown<%d>'], "not in dmap") and [add_function] asks for "an unused
    node id" starting from the requested name: the initial guess when it is
    free, else the first of [guess<0>], [guess<1>], ... that is free. *)

Definition node_id_format (initial_guess : node_id) (n : nat) : node_id :=
  Str (id_str initial_guess +:+ "<" +:+ pretty n +:+ ">").

Fixpoint unused_from (g : DiGraph) (initial_guess : node_id) (n fuel : nat)
  : option node_id :=
  match fuel with
  | 0 => None
  | S fuel' =>
      let node_id := node_id_format initial_guess n in
      if has_node g node_id
      then unused_from g initial_guess (S n) fuel'
      else Some node_id
  end.

(** The loop stops within [size (node g) + 1] guesses
    ([unused_from_total] below), so the default is never used. *)
Definition get_unused_node_id (g : DiGraph) (initial_guess : node_id) : node_id :=
  if has_node g initial_guess
  then default initial_guess
         (unused_from g initial_guess 0 (S (size (node g))))
  else initial_guess.

(** *** [Dispatcher.add_data] *)

Record data_args := mkDataArgs {
  da_default_value : value;          (* default EMPTY *)
  da_initial_dist : value;           (* default 0.0 *)
  da_wait_inputs : bool;             (* default False *)
  da_wildcard : option value;
  da_function : option value;
  da_callback : option value;
  da_remote_links : option value;
  da_description : option value;
  da_filters : value;                (* default None *)
  da_kwargs : attrs
}.

Definition data_defaults : data_args :=
  mkDataArgs (VTok EMPTY) (VNum 0) false None None None None None VNone ∅.

(** [x or y] on an optional argument. *)
Definition or_else (x : option value) (y : value) : value :=
  match x with
  | Some v => if truthy v then v else y
  | None => y
  end.

(** [if v is not None: attr_dict[k] = v]. *)
Definition set_opt (k : string) (v : option value) (a : attrs) : attrs :=
  match v with
  | Some x => <[k := x]> a
  | None => a
  end.

(** [if v: attr_dict[k] = v]. *)
Definition set_if (k : string) (v : value) (a : attrs) : attrs :=
  if truthy v then <[k := v]> a else a.

(** The special data nodes. *)
Definition special_data (data_id : option node_id) (a : data_args) : data_args :=
  match data_id with
  | Some (Tok START) =>
      mkDataArgs (VTok NONE) (da_initial_dist a) (da_wait_inputs a)
        (da_wildcard a) (da_function a) (da_callback a) (da_remote_links a)
        (Some (VBuiltin (Doc START))) (da_filters a) (da_kwargs a)
  | Some (Tok SINK) =>
      mkDataArgs (da_default_value a) (da_initial_dist a) true
        (da_wildcard a) (Some (VBuiltin Bypass)) (da_callback a)
        (da_remote_links a) (Some (VBuiltin (Doc SINK))) (da_filters a)
        (da_kwargs a)
  | Some (Tok SELF) =>
      mkDataArgs (VBuiltin Self) (da_initial_dist a) (da_wait_inputs a)
        (da_wildcard a) (da_function a) (da_callback a) (da_remote_links a)
        (Some (VBuiltin (Doc SELF))) (da_filters a) (da_kwargs a)
  | Some (Tok PLOT) =>
      mkDataArgs (da_default_value a) (da_initial_dist a) (da_wait_inputs a)
        (da_wildcard a)
        (Some (or_else (da_function a) (VBuiltin Autoplot_function)))
        (Some (or_else (da_callback a) (VBuiltin Autoplot_callback)))
        (da_remote_links a) (Some (VBuiltin (Doc PLOT))) (da_filters a)
        (da_kwargs a)
  | _ => a
  end.

Definition data_attr_dict (index : nat) (a : data_args) : attrs :=
  da_kwargs a ∪
  set_if "filters" (da_filters a)
   (set_opt "description" (da_description a)
     (set_opt "remote_links" (da_remote_links a)
       (set_opt "wildcard" (da_wildcard a)
         (set_opt "callback" (da_callback a)
           (set_opt "function" (da_function a)
             (<["type" := VStr "data"]>
               (<["wait_inputs" := VBool (da_wait_inputs a)]>
                 {["index" := VIndex index]}))))))).

Definition add_data (data_id : option node_id) (args : data_args) : M node_id :=
  let a := special_data data_id args in
  index ←ᴹ next_index;
  let attr_dict := data_attr_dict index a in
  d ←ᴹ get;
  data_id ←ᴹ
    match data_id with
    | None => ret (get_unused_node_id (dmap d) (Str "unknown"))
    | Some i =>
        if has_node (dmap d) i then
          match node_type (dmap d) i with
          | Ok t =>
              if decide (t = VStr "data") then ret i
              else raise (ValueError_override_function i)
          | Raise e => raise e
          end
        else ret i
    end;
  modify (λ d, with_dmap (add_node data_id attr_dict (dmap d)) d) ;;ᴹ
  set_default_value data_id (da_default_value a) (da_initial_dist a) ;;ᴹ
  ret data_id.

(** *** [add_func_edges]

    Modelled from the spec: [schedula/utils/alg.py] is not among the
    sources.  The inputs and outputs of a function node are data ids
    (section 3), "edges are added with the supplied per-edge weights"
    (section 4.G), an id bound to another kind is a construction error that
    fails at build time (section 7), and the docstrings of the dispatcher
    add functions over data ids that are not nodes yet.  So each id of the
    bunch that is no node becomes a data node through [add_data]; an id
    bound to a node that is not a data node raises [ValueError] after the
    function node and the data nodes this call created are removed (the
    list the two calls of [add_function] hand over); else the edge is
    added, with its weight when [edge_weights] has one. *)

Definition edge_attr (edge_weights : option (gmap node_id value)) (w : node_id)
  : attrs :=
  match edge_weights with
  | Some ws =>
      match ws !! w with
      | Some x => {["weight" := x]}
      | None => ∅
      end
  | None => ∅
  end.

Fixpoint add_func_edges (fun_id : node_id) (nodes_bunch : list node_id)
    (edge_weights : option (gmap node_id value)) (input : bool)
    (data_nodes : list node_id) : M (list node_id) :=
  match nodes_bunch with
  | [] => ret data_nodes
  | u :: nodes_bunch' =>
      d ←ᴹ get;
      data_nodes ←ᴹ
        match node_type (dmap d) u with
        | Ok t =>
            if decide (t = VStr "data") then ret data_nodes
            else
              modify (λ d, with_dmap
                (remove_nodes_from (data_nodes ++ [fun_id]) (dmap d)) d) ;;ᴹ
              raise (ValueError_invalid_io input u)
        | Raise _ =>
            v ←ᴹ add_data (Some u) data_defaults;
            ret (data_nodes ++ [v])
        end;
      modify (λ d, with_dmap
        (if input
         then add_edge u fun_id (edge_attr edge_weights u) (dmap d)
         else add_edge fun_id u (edge_attr edge_weights u) (dmap d)) d) ;;ᴹ
      add_func_edges fun_id nodes_bunch' edge_weights input data_nodes
  end.

(** *** [Dispatcher.add_function] *)

Record function_args := mkFunctionArgs {
  fa_function : value;                       (* default None *)
  fa_inputs : option (list node_id);
  fa_outputs : option (list node_id);
  fa_input_domain : value;                   (* default None *)
  fa_weight : option value;
  fa_inp_weight : option (gmap node_id value);
  fa_out_weight : option (gmap node_id value);
  fa_description : option value;
  fa_filters : value;                        (* default None *)
  fa_kwargs : attrs
}.

Definition function_defaults : function_args :=
  mkFunctionArgs VNone None None VNone None None None None VNone ∅.

(** [parent_func(function).__name__], when there is one. *)
Definition func_name (f : value) : option string :=
  match f with
  | VObj nm _ => nm
  | VBuiltin Bypass => Some "bypass"
  | VBuiltin Autoplot_callback => Some "autoplot_callback"
  | VBuiltin Autoplot_function => Some "autoplot_function"
  | _ => None
  end.

Definition function_attr_dict (index : nat) (inputs outputs : list node_id)
    (a : function_args) : attrs :=
  fa_kwargs a ∪
  set_opt "weight" (fa_weight a)
   (set_if "filters" (fa_filters a)
     (set_opt "description" (fa_description a)
       (set_if "input_domain" (fa_input_domain a)
         (<["type" := VStr "function"]>
           (<["inputs" := VIds inputs]>
             (<["outputs" := VIds outputs]>
               (<["function" := fa_function a]>
                 (<["wait_inputs" := VBool true]>
                   {["index" := VIndex index]})))))))).

(** [if t not in self.nodes: self.add_data(t)]. *)
Definition ensure_token (t : Token) : M unit :=
  d ←ᴹ get;
  match nodes d !! Tok t with
  | Some _ => ret tt
  | None => add_data (Some (Tok t)) data_defaults ;;ᴹ ret tt
  end.

Definition add_function (function_id : option node_id) (a : function_args)
  : M node_id :=
  inputs ←ᴹ
    match fa_inputs a with
    | None => ensure_token START ;;ᴹ ret [Tok START]
    | Some l => ret l
    end;
  outputs ←ᴹ
    match fa_outputs a with
    | None => ensure_token SINK ;;ᴹ ret [Tok SINK]
    | Some l => ret l
    end;
  index ←ᴹ next_index;
  let attr_dict := function_attr_dict index inputs outputs a in
  function_name ←ᴹ
    match function_id with
    | None =>
        match func_name (fa_function a) with
        | Some n => ret (Str n)
        | None => raise ValueError_invalid_function_id
        end
    | Some i => ret i
    end;
  d ←ᴹ get;
  let fun_id := get_unused_node_id (dmap d) function_name in
  modify (λ d, with_dmap (add_node fun_id attr_dict (dmap d)) d) ;;ᴹ
  n_data ←ᴹ add_func_edges fun_id inputs (fa_inp_weight a) true [];
  add_func_edges fun_id outputs (fa_out_weight a) false n_data ;;ᴹ
  ret fun_id.

(** *** [Dispatcher.__init__] and [Dispatcher.copy_structure] *)

(** The class attribute [Dispatcher.stopper = threading.Event()]: one event,
    created when the class is. *)
Definition Dispatcher_stopper : loc := 1%positive.

(** [dmap or DiGraph()]: a graph without nodes is false. *)
Definition dmap_or_new (dmap : option DiGraph) : DiGraph :=
  match dmap with
  | Some g => if decide (node g = ∅) then DiGraph_new else g
  | None => DiGraph_new
  end.

(** [stopper or self.__class__.stopper]: an event is always true. *)
Definition stopper_or_class (stopper : option loc) : loc :=
  match stopper with
  | Some s => s
  | None => Dispatcher_stopper
  end.

Definition Dispatcher_init (dmap : option DiGraph) (name : string)
    (default_values : option (gmap node_id default_entry)) (raises : bool)
    (description : string) (stopper : option loc) : Dispatcher :=
  mkDispatcher (dmap_or_new dmap) name description
    (default ∅ default_values) "weight" raises (stopper_or_class stopper) 0.

(** The keyword arguments of [copy_structure]: [None] when the keyword is
    not passed, else what is passed for it. *)
Record init_kwargs := mkInitKwargs {
  kw_dmap : option (option DiGraph);
  kw_name : option string;
  kw_default_values : option (option (gmap node_id default_entry));
  kw_raises : option bool;
  kw_description : option string;
  kw_stopper : option (option loc)
}.

Definition no_kwargs : init_kwargs :=
  mkInitKwargs None None None None None None.

(** [self.__class__( **combine_dicts(kwargs, base=base))]: [base] is updated
    with [kwargs]. *)
Definition copy_structure (kwargs : init_kwargs) (self : Dispatcher) : Dispatcher :=
  let obj :=
    Dispatcher_init
      (default None (kw_dmap kwargs))
      (default (name self) (kw_name kwargs))
      (default None (kw_default_values kwargs))
      (default (raises_ self) (kw_raises kwargs))
      (default (doc self) (kw_description kwargs))
      (default (Some (stopper self)) (kw_stopper kwargs)) in
  with_weight (weight self) obj.

(** *** [Dispatcher.set_data_remote_link]

    [remote_link] is [None] for the [EMPTY] sentinel. *)

Definition link_type_of (is_parent : bool) : link_type :=
  if is_parent then Parent else Child.

Definition set_data_remote_link (data_id : node_id)
    (remote_link : option remote_link) (is_parent : bool) : M unit :=
  d ←ᴹ get;
  (if bool_decide (is_Some remote_link ∧ data_id = Tok SINK
                   ∧ nodes d !! data_id = None)
   then add_data (Some (Tok SINK)) data_defaults ;;ᴹ ret tt
   else ret tt) ;;ᴹ
  d ←ᴹ get;
  match node_type (dmap d) data_id, nodes d !! data_id with
  | Ok t, Some nd =>
      if decide (t = VStr "data") then
        let type := link_type_of is_parent in
        match remote_link with
        | None =>
            (* [rl = node.get('remote_links', [])]; the comprehension reads
               [rl[1]] for every element of [rl] and compares it with the
               type: a link list never equals a string *)
            match default (VLinks []) (nd !! "remote_links") with
            | VLinks [] =>
                modify (λ d, with_dmap
                  (mkDiGraph (<[data_id := delete "remote_links" nd]> (nodes d))
                             (edge (dmap d))) d)
            | VLinks [_] => raise IndexError
            | VLinks _ => ret tt
            | _ => raise TypeError
            end
        | Some l =>
            match default (VLinks []) (nd !! "remote_links") with
            | VLinks rl =>
                let rl' := if decide ((l, type) ∈ rl) then rl
                           else rl ++ [(l, type)] in
                modify (λ d, with_dmap
                  (mkDiGraph
                     (<[data_id := <["remote_links" := VLinks rl']> nd]> (nodes d))
                     (edge (dmap d))) d)
            | _ => raise TypeError
            end
        end
      else raise (ValueError_not_a_data_node data_id)
  | _, _ => raise (ValueError_not_a_data_node data_id)
  end.

(** *** [Dispatcher.add_dispatcher] *)

(** The order of node ids under [sorted]: the order of their characters. *)
Definition id_le (i j : node_id) : Prop := String.le (id_str i) (id_str j).

#[global] Instance id_le_dec : RelDecision id_le.
Proof. intros i j. unfold id_le. apply _. Defined.

Definition sorted (l : list node_id) : list node_id := merge_sort id_le l.

(** A sub-dispatcher I/O map, as the items of the dictionary. *)
Abbreviation io_map := (list (node_id * io_ids)).

(** [stlp] *)
Definition stlp (s : io_ids) : list node_id :=
  match s with
  | One i => [i]
  | Many l => l
  end.

(** [_children]: the set of the ids the values of an I/O map name.
    Modelled from the spec: [schedula/utils/alg.py] is not among the
    sources; "one parent id may fan into several child ids and one child id
    may fan out to several parent ids". *)
Definition _children (m : io_map) : list node_id :=
  remove_dups (mjoin (stlp <$> m.*2)).

Record dispatcher_args := mkDispatcherArgs {
  ds_dsp_id : option node_id;
  ds_input_domain : value;
  ds_weight : option value;
  ds_inp_weight : option (gmap node_id value);
  ds_description : option value;
  ds_include_defaults : bool;
  ds_out_weight : option (gmap node_id value);   (* through **kwargs *)
  ds_filters : value;                              (* through **kwargs *)
  ds_kwargs : attrs
}.

Definition dispatcher_defaults : dispatcher_args :=
  mkDispatcherArgs None VNone None None None false None VNone ∅.

(** The remote links the child receives: parent links on the children of
    [inputs], child links on the keys of [outputs]. *)
Fixpoint set_remote_links (ks : list node_id) (l : remote_link)
    (is_parent : bool) : M unit :=
  match ks with
  | [] => ret tt
  | k :: ks' =>
      set_data_remote_link k (Some l) is_parent ;;ᴹ
      set_remote_links ks' l is_parent
  end.

(** The import of the defaults of the child: the state is the parent, the
    defaults of the child and the set [remove]. *)
Fixpoint import_defaults (inputs : io_map) (remove : list node_id)
    (dsp_dfl : gmap node_id default_entry) (self : Dispatcher)
  : res unit * Dispatcher * gmap node_id default_entry :=
  match inputs with
  | [] => (Ok tt, self, foldl (λ m k, delete k m) dsp_dfl remove)
  | (k, One v) :: inputs' =>
      match dsp_dfl !! v with
      | Some e =>
          match set_default_value k (dv_value e) (initial_dist e) self with
          | (Ok _, self') =>
              import_defaults inputs' remove (delete v dsp_dfl) self'
          | (Raise x, self') => (Raise x, self', delete v dsp_dfl)
          end
      | None => import_defaults inputs' remove dsp_dfl self
      end
  | (k, Many []) :: _ => (Raise IndexError, self, dsp_dfl)
  | (k, Many (v0 :: vs)) :: inputs' =>
      match dsp_dfl !! v0 with
      | Some e =>
          match set_default_value k (dv_value e) (initial_dist e) self with
          | (Ok _, self') =>
              import_defaults inputs' (remove ++ vs) (delete v0 dsp_dfl) self'
          | (Raise x, self') => (Raise x, self', delete v0 dsp_dfl)
          end
      | None => import_defaults inputs' remove dsp_dfl self
      end
  end.

(** [self_obj] and [dsp_obj] are the identities of the parent and of the
    child, a [Dispatcher] instance distinct from the parent; the result is
    the outcome, the parent and the child as the call leaves them. *)
Definition add_dispatcher (self_obj dsp_obj : positive)
    (inputs outputs : io_map) (a : dispatcher_args) (dsp : Dispatcher)
    (self : Dispatcher) : res node_id * Dispatcher * Dispatcher :=
  let dsp_id :=
    match ds_dsp_id a with
    | Some i => if id_truthy i then i
                else Str (if decide (name dsp = "") then "unknown" else name dsp)
    | None => Str (if decide (name dsp = "") then "unknown" else name dsp)
    end in
  let description :=
    match ds_description a with
    | Some x => Some x
    | None => if decide (doc dsp = "") then None else Some (VStr (doc dsp))
    end in
  let _weight_from : gmap node_id value :=
    default ∅ (ds_inp_weight a) ∪ list_to_map ((λ k, (k, VNum 0)) <$> inputs.*1) in
  let children := _children inputs in
  let parents := _children outputs in
  if bool_decide (is_Some (ds_kwargs a !! "type")
                  ∨ is_Some (ds_kwargs a !! "wait_inputs"))
  then (Raise TypeError, self, dsp)   (* multiple values for a keyword *)
  else
  match add_function (Some dsp_id)
          (mkFunctionArgs (VObj None dsp_obj) (Some (sorted inputs.*1))
             (Some (sorted parents)) (ds_input_domain a) (ds_weight a)
             (Some _weight_from) (ds_out_weight a) description (ds_filters a)
             (<["type" := VStr "dispatcher"]>
                (<["wait_inputs" := VBool false]> (ds_kwargs a))))
          self with
  | (Raise e, self) => (Raise e, self, dsp)
  | (Ok dsp_id, self) =>
      match nodes self !! dsp_id with
      | None => (Raise (KeyError_node dsp_id), self, dsp)
      | Some nd =>
          let nd := <["outputs" := VIoMap outputs]>
                      (<["inputs" := VIoMap inputs]> nd) in
          let self := with_dmap (mkDiGraph (<[dsp_id := nd]> (nodes self))
                                           (edge (dmap self))) self in
          let remote_link := (dsp_id, self_obj) in
          match (set_remote_links children remote_link true ;;ᴹ
                 set_remote_links outputs.*1 remote_link false) dsp with
          | (Raise e, dsp) => (Raise e, self, dsp)
          | (Ok _, dsp) =>
              if ds_include_defaults a then
                match import_defaults inputs [] (default_values dsp) self with
                | (Ok _, self, dfl) =>
                    (Ok dsp_id, self, with_default_values dfl dsp)
                | (Raise e, self, dfl) =>
                    (Raise e, self, with_default_values dfl dsp)
                end
              else (Ok dsp_id, self, dsp)
          end
      end
  end.

(** *** [Dispatcher.get_sub_dsp] *)

(** [self.get_node(u)[1][0]], the "real path" of a node id.
    Modelled from the spec: [schedula/utils/base.py] is not among the
    sources.  [get_sub_dsp] takes node ids of the dispatcher: the id of a
    node is its own path, and an id that names no node is an error. *)
Definition get_node (self : Dispatcher) (u : node_id) : res node_id :=
  if has_node (dmap self) u then Ok u else Raise (KeyError_node u).

Fixpoint real_paths (self : Dispatcher) (nodes_bunch : list node_id)
  : res (list node_id) :=
  match nodes_bunch with
  | [] => Ok []
  | u :: us =>
      match get_node self u with
      | Ok u' =>
          match real_paths self us with
          | Ok us' => Ok (u' :: us')
          | Raise e => Raise e
          end
      | Raise e => Raise e
      end
  end.

(** [set(n)] for the value [n] of an ['inputs'] attribute: the ids of a
    function node, the keys of the map of a sub-dispatcher node. *)
Definition inputs_set (n : value) : res (list node_id) :=
  match n with
  | VIds l => Ok l
  | VIoMap m => Ok m.*1
  | _ => Raise TypeError
  end.

(** "Remove function nodes that has not whole inputs available." *)
Fixpoint remove_no_inputs (todo nodes_bunch : list node_id) (g : DiGraph)
  : res DiGraph :=
  match todo with
  | [] => Ok g
  | u :: todo' =>
      match node g !! u with
      | None => Raise (KeyError_node u)
      | Some a =>
          match a !! "inputs" with
          | None | Some VNone => remove_no_inputs todo' nodes_bunch g
          | Some n =>
              match inputs_set n with
              | Ok l =>
                  if decide (l ⊆ nodes_bunch)
                  then remove_no_inputs todo' nodes_bunch g
                  else
                    match remove_node u g with
                    | Ok g' => remove_no_inputs todo' nodes_bunch g'
                    | Raise e => Raise e
                    end
              | Raise e => Raise e
              end
          end
      end
  end.

(** "Remove edges that are not in edges_bunch." *)
Fixpoint remove_edges (edges_bunch : list (node_id * node_id)) (g : DiGraph)
  : res DiGraph :=
  match edges_bunch with
  | [] => Ok g
  | (u, v) :: es =>
      match remove_edge u v g with
      | Ok g' => remove_edges es g'
      | Raise e => Raise e
      end
  end.

(** [[u for u, n in nodes_iter(True) if n['type'] == 'function']] *)
Fixpoint function_ids (l : list (node_id * attrs)) : res (list node_id) :=
  match l with
  | [] => Ok []
  | (u, n) :: l' =>
      match n !! "type" with
      | None => Raise (KeyError "type")
      | Some t =>
          match function_ids l' with
          | Ok us => Ok (if decide (t = VStr "function") then u :: us else us)
          | Raise e => Raise e
          end
      end
  end.

(** "Remove function node with no outputs." *)
Fixpoint remove_no_outputs (us : list node_id) (g : DiGraph) : res DiGraph :=
  match us with
  | [] => Ok g
  | u :: us' =>
      if decide (out_degree g u = 0) then
        match remove_node u g with
        | Ok g' => remove_no_outputs us' g'
        | Raise e => Raise e
        end
      else remove_no_outputs us' g
  end.

Definition get_sub_dsp (nodes_bunch : list node_id)
    (edges_bunch : option (list (node_id * node_id))) (self : Dispatcher)
  : res Dispatcher :=
  match real_paths self nodes_bunch with
  | Raise e => Raise e
  | Ok nodes_bunch =>
      let sub_dsp :=
        copy_structure
          (mkInitKwargs (Some (Some (subgraph nodes_bunch (dmap self))))
                        None None None None None) self in
      match remove_no_inputs nodes_bunch nodes_bunch (dmap sub_dsp) with
      | Raise e => Raise e
      | Ok g1 =>
          match remove_edges (default [] edges_bunch) g1 with
          | Raise e => Raise e
          | Ok g2 =>
              match function_ids (map_to_list (node g2)) with
              | Raise e => Raise e
              | Ok fs =>
                  match remove_no_outputs fs g2 with
                  | Raise e => Raise e
                  | Ok g3 =>
                      let g4 := remove_nodes_from (isolates g3) g3 in
                      Ok (with_default_values
                            (filter (λ kv, is_Some (node g4 !! kv.1))
                                    (default_values self))
                            (with_dmap g4 sub_dsp))
                  end
              end
          end
      end
  end.

(** ** The stopper: [threading.Event] objects in the store of the process *)

Abbreviation events := (gmap loc bool).

Definition Event_is_set (σ : events) (e : loc) : bool := default false (σ !! e).
Definition Event_set (e : loc) (σ : events) : events := <[e := true]> σ.
Definition Event_clear (e : loc) (σ : events) : events := <[e := false]> σ.

(** The dispatchers that never received a stopper of their own: built by
    the constructor without the [stopper] argument, then grown by the
    building methods, copied by [copy_structure] without a [stopper]
    keyword, or cut out by [get_sub_dsp]. *)
Inductive derived : Dispatcher → Prop :=
  | derived_init dmap name dv raises description :
      derived (Dispatcher_init dmap name dv raises description None)
  | derived_add_data d data_id args :
      derived d → derived (add_data data_id args d).2
  | derived_add_function d function_id args :
      derived d → derived (add_function function_id args d).2
  | derived_set_default_value d data_id v dist :
      derived d → derived (set_default_value data_id v dist d).2
  | derived_add_dispatcher_parent d c so co i o a :
      derived d → derived (add_dispatcher so co i o a c d).1.2
  | derived_add_dispatcher_child d c so co i o a :
      derived c → derived (add_dispatcher so co i o a c d).2
  | derived_copy_structure d kw :
      derived d → kw_stopper kw = None →
      derived (copy_structure kw d)
  | derived_get_sub_dsp d nodes_bunch edges_bunch d' :
      derived d → get_sub_dsp nodes_bunch edges_bunch d = Ok d' →
      derived d'.

(** ** The wrappers of [schedula/utils/dsp.py] *)

(** [combine_dicts]: the dictionaries in one, later dictionaries win. *)
Definition combine_dicts (dicts : list (gmap node_id value)) : gmap node_id value :=
  foldl (λ cd d, d ∪ cd) ∅ dicts.

(** The value of [k] in the last dictionary that has [k]: "later
    dictionaries win". *)
Definition last_binding (dicts : list (gmap node_id value)) (k : node_id)
  : option value :=
  last (omap (λ d : gmap node_id value, d !! k) dicts).

(** [map_list] for a key map of data ids and the positional values, which is what
    [SubDispatchFunction] holds ([dict.fromkeys(inputs, None)] in its
    constructor refuses nested maps): [zip] stops at the shorter list and a
    later pair wins. *)
Definition map_list (key_map : list node_id) (inputs : list value)
  : gmap node_id value :=
  foldl (λ d mv, <[mv.1 := mv.2]> d) ∅ (zip key_map inputs).

(** What [_sol] gives access to: the parent solution [_sol[1]], by its
    identity, with its stopper. *)
Record sol_ref := mkSolRef {
  ref_obj : positive;
  ref_stopper : loc
}.

(** A solution ([schedula/utils/sol.py] is not among the sources): the
    mapping from data ids to values that it is, the attributes the wrappers
    read and write, and whatever else the engine keeps in it. *)
Record Solution (W : Type) := mkSolution {
  sol_values : gmap node_id value;
  sol_inputs : gmap node_id value;
  sol_stopper : loc;
  sol_parent : option sol_ref;
  sol_state : W
}.
Arguments mkSolution {W}.
Arguments sol_values {W}.
Arguments sol_inputs {W}.
Arguments sol_stopper {W}.
Arguments sol_parent {W}.
Arguments sol_state {W}.

Definition set_parent {W} (p : option sol_ref) (s : Solution W) : Solution W :=
  mkSolution (sol_values s) (sol_inputs s) (sol_stopper s) p (sol_state s).

Definition set_stopper {W} (e : loc) (s : Solution W) : Solution W :=
  mkSolution (sol_values s) (sol_inputs s) e (sol_parent s) (sol_state s).

(** What a call returns. *)
Inductive pyret (W : Type) :=
  | RSolution (s : Solution W)
  | RList (l : list value)
  | RTuple (l : list value)
  | RValue (v : value)
  | RDict (m : gmap node_id value).
Arguments RSolution {W}.
Arguments RList {W}.
Arguments RTuple {W}.
Arguments RValue {W}.
Arguments RDict {W}.

(** What a call raises. *)
Inductive call_exn (W : Type) :=
  | DispatcherError (sol : Solution W) (missed : list node_id)
  | DispatcherAbort (sol : Solution W)
  | TypeError_multiple_values (name : string) (arg : node_id)
      (* "%s() got multiple values for argument '%s'" *)
  | TypeError_unexpected_keyword (name : string) (arg : node_id)
      (* "%s() got an unexpected keyword argument '%s'" *)
  | TypeError_not_iterable
  | Engine_error (o : positive).
Arguments DispatcherError {W}.
Arguments DispatcherAbort {W}.
Arguments TypeError_multiple_values {W}.
Arguments TypeError_unexpected_keyword {W}.
Arguments TypeError_not_iterable {W}.
Arguments Engine_error {W}.

Inductive outcome (W A : Type) :=
  | Returns (a : A)
  | Raises (e : call_exn W).
Arguments Returns {W A}.
Arguments Raises {W A}.

(** [[dictionary[k] for k in keys]]: [None] is the [KeyError]. *)
Definition lookups (keys : list node_id) (dictionary : gmap node_id value)
  : option (list value) :=
  mapM (λ k, dictionary !! k) keys.

(** [bypass]: the only argument, or all of them. *)
Definition bypass {W} (inputs : list value) : pyret W :=
  match inputs with
  | [v] => RValue v
  | _ => RTuple inputs
  end.

(** [selector(keys, dictionary, output_type=...)], with [allow_miss] left
    at [False]: [None] is the [KeyError] of a missing key. *)
Definition selector {W} (keys : list node_id) (dictionary : gmap node_id value)
    (output_type : string) : option (pyret W) :=
  if decide (output_type = "list") then
    RList <$> lookups keys dictionary
  else if decide (output_type = "values") then
    bypass <$> lookups keys dictionary
  else
    (λ vs, RDict (list_to_map (zip keys vs))) <$> lookups keys dictionary.

(** The attributes of a [SubDispatch]. *)
Record SubDispatch (W : Type) := mkSubDispatch {
  sd_dsp : Dispatcher;
  sd_outputs : option (list node_id);
  sd_cutoff : option value;
  sd_inputs_dist : option (gmap node_id value);
  sd_wildcard : bool;
  sd_no_call : bool;
  sd_shrink : bool;
  sd_rm_unused_nds : bool;
  sd_output_type : string;
  (* the attributes [SubDispatchFunction] adds *)
  sd_inputs : list node_id;
  sd_sol : Solution W
}.
Arguments sd_dsp {W}.
Arguments sd_outputs {W}.
Arguments sd_cutoff {W}.
Arguments sd_inputs_dist {W}.
Arguments sd_wildcard {W}.
Arguments sd_no_call {W}.
Arguments sd_shrink {W}.
Arguments sd_rm_unused_nds {W}.
Arguments sd_output_type {W}.
Arguments sd_inputs {W}.
Arguments sd_sol {W}.

(** [SubDispatch._return] (the store of the solution into [_sol_output],
    which no result depends on, is left out). *)
Definition _return {W} (self : SubDispatch W) (solution : Solution W)
    (_sol : option sol_ref) : outcome W (pyret W) :=
  let outs := sd_outputs self in
  let solution := set_parent _sol solution in
  if decide (sd_output_type self ≠ "all") then
    match outs with
    | None => Raises TypeError_not_iterable
    | Some outs =>
        match selector outs (sol_values solution) (sd_output_type self) with
        | Some r => Returns r
        | None =>
            let missed :=
              filter (λ k, sol_values solution !! k = None) (remove_dups outs) in
            Raises (DispatcherError solution missed)
        end
    end
  else Returns (RSolution solution).

(** [_sol and _sol[1].stopper] *)
Definition parent_stopper (_sol : option sol_ref) : option loc :=
  ref_stopper <$> _sol.

(** The first element of a generator, [next(gen, None)]. *)
Definition next_or_None {A} (P : A → Prop) `{∀ x, Decision (P x)} (l : list A)
  : option A :=
  head (filter P l).

(** The two checks of [SubDispatchFunction.__call__] on the keywords:
    [inputs] are the ids bound by the positional arguments, [kwargs] the
    keywords in the order of the call. *)
Definition check_kwargs {W} (dsp : Dispatcher) (inputs : gmap node_id value)
    (kwargs : list (node_id * value)) : option (call_exn W) :=
  match next_or_None (λ i, is_Some (inputs !! i)) kwargs.*1 with
  | Some i =>
      if id_truthy i then Some (TypeError_multiple_values (name dsp) i)
      else
        match next_or_None (λ i, nodes dsp !! i = None) (sorted kwargs.*1) with
        | Some i =>
            if id_truthy i then Some (TypeError_unexpected_keyword (name dsp) i)
            else None
        | None => None
        end
  | None =>
      match next_or_None (λ i, nodes dsp !! i = None) (sorted kwargs.*1) with
      | Some i =>
          if id_truthy i then Some (TypeError_unexpected_keyword (name dsp) i)
          else None
      | None => None
      end
  end.

Section engine.
(** The engine of [schedula/utils/sol.py] and of [Dispatcher.dispatch],
    which the wrappers call and which is not among the sources: any
    engine. *)
Context {W : Type}.
Variable dispatch :
  Dispatcher → gmap node_id value → option (list node_id) → option value →
  option (gmap node_id value) → bool → bool → bool → bool → option loc →
  outcome W (Solution W).
Variable copy_structure_sol : Solution W → Solution W.
Variable _init_workflow :
  gmap node_id value → option (gmap node_id value) → Solution W → Solution W.
Variable run : Solution W → outcome W (Solution W).

(** [SubDispatch.__call__] *)
Definition SubDispatch_call (self : SubDispatch W)
    (input_dicts : list (gmap node_id value)) (_sol : option sol_ref)
  : outcome W (pyret W) :=
  let i := combine_dicts input_dicts in
  match dispatch (sd_dsp self) i (sd_outputs self) (sd_cutoff self)
          (sd_inputs_dist self) (sd_wildcard self) (sd_no_call self)
          (sd_shrink self) (sd_rm_unused_nds self) (parent_stopper _sol) with
  | Raises e => Raises e
  | Returns solution => _return self solution _sol
  end.

(** [SubDispatchFunction.__call__] *)
Definition SubDispatchFunction_call (self : SubDispatch W)
    (args : list value) (kwargs : list (node_id * value))
    (_sol : option sol_ref) : outcome W (pyret W) :=
  let dsp := sd_dsp self in
  let inputs := map_list (sd_inputs self) args in
  let sol := copy_structure_sol (sd_sol self) in
  let sol := set_stopper (default (stopper dsp) (parent_stopper _sol)) sol in
  match check_kwargs dsp inputs kwargs with
  | Some e => Raises e
  | None =>
      let input_values :=
        combine_dicts [sol_inputs sol; inputs; list_to_map kwargs] in
      let sol := _init_workflow input_values (sd_inputs_dist self) sol in
      match run sol with
      | Raises e => Raises e
      | Returns sol => _return self sol _sol
      end
  end.
End engine.

(** * Properties *)

(** ** Reasoning about methods *)

(** A method keeps a relation between the dispatcher before and after the
    call, whether it returns or raises. *)
Definition preserves {A} (R : relation Dispatcher) (m : M A) : Prop :=
  ∀ d, R d (m d).2.

Section preserves.
Context (R : relation Dispatcher) `{!PreOrder R}.

Lemma preserves_ret {A} (a : A) : preserves R (ret a).
Proof. intros d. reflexivity. Qed.

Lemma preserves_raise {A} e : preserves R (@raise A e).
Proof. intros d. reflexivity. Qed.

Lemma preserves_get : preserves R get.
Proof. intros d. reflexivity. Qed.

Lemma preserves_modify f : (∀ d, R d (f d)) → preserves R (modify f).
Proof. intros Hf d. apply Hf. Qed.

Lemma preserves_bind {A B} (m : M A) (k : A → M B) :
  preserves R m → (∀ a, preserves R (k a)) → preserves R (bind m k).
Proof.
  intros Hm Hk d. unfold bind. specialize (Hm d).
  destruct (m d) as [[a|e] d']; simpl in *; [|done].
  etrans; [exact Hm|apply Hk].
Qed.
End preserves.

Definition same_stopper : relation Dispatcher :=
  λ d d', stopper d' = stopper d.

#[local] Instance same_stopper_preorder : PreOrder same_stopper.
Proof. split; [done|]. intros x y z ??. unfold same_stopper in *. congruence. Qed.

Lemma next_index_stopper : preserves same_stopper next_index.
Proof. done. Qed.

Lemma set_default_value_stopper data_id v dist :
  preserves same_stopper (set_default_value data_id v dist).
Proof.
  intros d. unfold set_default_value.
  destruct (node_type _ _); [|done]. repeat case_decide; done.
Qed.

Lemma add_data_stopper data_id args :
  preserves same_stopper (add_data data_id args).
Proof.
  unfold add_data.
  apply preserves_bind; [apply _|apply next_index_stopper|]. intros index.
  apply preserves_bind; [apply _|apply preserves_get; apply _|]. intros d.
  apply preserves_bind; [apply _| |].
  - destruct data_id as [i|]; [|apply preserves_ret; apply _].
    destruct (has_node _ _); [|apply preserves_ret; apply _].
    destruct (node_type _ _); [|apply preserves_raise; apply _].
    case_decide; [apply preserves_ret|apply preserves_raise]; apply _.
  - intros i.
    apply preserves_bind; [apply _|by apply preserves_modify|]. intros _.
    apply preserves_bind; [apply _|apply set_default_value_stopper|]. intros _.
    apply preserves_ret; apply _.
Qed.

Lemma remove_nodes_from_with_dmap_stopper l :
  preserves same_stopper
    (modify (λ d, with_dmap (remove_nodes_from l (dmap d)) d)).
Proof. done. Qed.

Lemma add_func_edges_stopper fun_id nodes_bunch ws input data_nodes :
  preserves same_stopper (add_func_edges fun_id nodes_bunch ws input data_nodes).
Proof.
  revert data_nodes.
  induction nodes_bunch as [|u us IH]; intros dn; simpl.
  { apply preserves_ret; apply _. }
  apply preserves_bind; [apply _|apply preserves_get; apply _|]. intros d.
  apply preserves_bind; [apply _| |].
  - destruct (node_type _ _).
    + case_decide; [apply preserves_ret; apply _|].
      apply preserves_bind; [apply _|done|]. intros _.
      apply preserves_raise; apply _.
    + apply preserves_bind; [apply _|apply add_data_stopper|]. intros v.
      apply preserves_ret; apply _.
  - intros dn'.
    apply preserves_bind; [apply _|by apply preserves_modify|]. intros _.
    apply IH.
Qed.

Lemma ensure_token_stopper t : preserves same_stopper (ensure_token t).
Proof.
  unfold ensure_token.
  apply preserves_bind; [apply _|apply preserves_get; apply _|]. intros d.
  destruct (nodes d !! Tok t); [apply preserves_ret; apply _|].
  apply preserves_bind; [apply _|apply add_data_stopper|]. intros _.
  apply preserves_ret; apply _.
Qed.

Lemma add_function_stopper function_id args :
  preserves same_stopper (add_function function_id args).
Proof.
  unfold add_function.
  apply preserves_bind; [apply _| |]; [|intros inputs].
  { destruct (fa_inputs args); [apply preserves_ret; apply _|].
    apply preserves_bind; [apply _|apply ensure_token_stopper|]. intros _.
    apply preserves_ret; apply _. }
  apply preserves_bind; [apply _| |]; [|intros outputs].
  { destruct (fa_outputs args); [apply preserves_ret; apply _|].
    apply preserves_bind; [apply _|apply ensure_token_stopper|]. intros _.
    apply preserves_ret; apply _. }
  apply preserves_bind; [apply _|apply next_index_stopper|]. intros index.
  apply preserves_bind; [apply _| |]; [|intros function_name].
  { destruct function_id; [apply preserves_ret; apply _|].
    destruct (func_name _); [apply preserves_ret|apply preserves_raise]; apply _. }
  apply preserves_bind; [apply _|apply preserves_get; apply _|]. intros d.
  apply preserves_bind; [apply _|by apply preserves_modify|]. intros _.
  apply preserves_bind; [apply _|apply add_func_edges_stopper|]. intros n_data.
  apply preserves_bind; [apply _|apply add_func_edges_stopper|]. intros _.
  apply preserves_ret; apply _.
Qed.

Lemma set_data_remote_link_stopper data_id l is_parent :
  preserves same_stopper (set_data_remote_link data_id l is_parent).
Proof.
  unfold set_data_remote_link.
  apply preserves_bind; [apply _|apply preserves_get; apply _|]. intros d.
  apply preserves_bind; [apply _| |]; [|intros _].
  { case_bool_decide; [|apply preserves_ret; apply _].
    apply preserves_bind; [apply _|apply add_data_stopper|]. intros _.
    apply preserves_ret; apply _. }
  apply preserves_bind; [apply _|apply preserves_get; apply _|]. intros d'.
  destruct (node_type _ _); [|apply preserves_raise; apply _].
  destruct (nodes d' !! data_id); [|apply preserves_raise; apply _].
  case_decide; [|apply preserves_raise; apply _].
  destruct l.
  - destruct (default _ _); try (apply preserves_raise; apply _).
    by apply preserves_modify.
  - destruct (default _ _) as [| | | | | | | | |l| |];
      try (apply preserves_raise; apply _).
    destruct l as [|? [|??]];
      [by apply preserves_modify|apply preserves_raise; apply _
      |apply preserves_ret; apply _].
Qed.

Lemma set_remote_links_stopper ks l is_parent :
  preserves same_stopper (set_remote_links ks l is_parent).
Proof.
  induction ks as [|k ks IH]; simpl; [apply preserves_ret; apply _|].
  apply preserves_bind; [apply _|apply set_data_remote_link_stopper|].
  intros _. apply IH.
Qed.

Lemma import_defaults_stopper inputs remove dfl self :
  stopper (import_defaults inputs remove dfl self).1.2 = stopper self.
Proof.
  revert remove dfl self.
  induction inputs as [|[k [v|[|v0 vs]]] inputs IH]; intros remove dfl self;
    simpl; [done| |done|].
  - destruct (dfl !! v) as [e|]; [|apply IH].
    pose proof (set_default_value_stopper k (dv_value e) (initial_dist e) self) as Hs.
    destruct (set_default_value _ _ _ _) as [[[]|x] self']; simpl in *;
      [|exact Hs].
    rewrite IH. exact Hs.
  - destruct (dfl !! v0) as [e|]; [|apply IH].
    pose proof (set_default_value_stopper k (dv_value e) (initial_dist e) self) as Hs.
    destruct (set_default_value _ _ _ _) as [[[]|x] self']; simpl in *;
      [|exact Hs].
    rewrite IH. exact Hs.
Qed.

Lemma add_dispatcher_stopper so co i o a c d :
  stopper (add_dispatcher so co i o a c d).1.2 = stopper d
  ∧ stopper (add_dispatcher so co i o a c d).2 = stopper c.
Proof.
  unfold add_dispatcher.
  case_bool_decide; [done|].
  match goal with |- context [add_function ?f ?x d] =>
    pose proof (add_function_stopper f x d) as Hf;
    destruct (add_function f x d) as [[dsp_id|e] self] end;
    simpl in *; [|done].
  destruct (nodes self !! dsp_id) as [nd|]; [|done].
  match goal with |- context [bind ?m ?k c] =>
    assert (preserves same_stopper (bind m k)) as Hc;
    [|specialize (Hc c); destruct (bind m k c) as [[[]|e] dsp] ] end;
    simpl in *.
  { apply preserves_bind; [apply _|apply set_remote_links_stopper|].
    intros _. apply set_remote_links_stopper. }
  2: done.
  destruct (ds_include_defaults a); [|done].
  match goal with |- context [import_defaults ?x ?y ?z ?w] =>
    pose proof (import_defaults_stopper x y z w) as Hi;
    destruct (import_defaults x y z w) as [[[[]|e] self'] dfl] end;
    simpl in *; split; congruence.
Qed.

Lemma get_sub_dsp_stopper nodes_bunch edges_bunch d d' :
  get_sub_dsp nodes_bunch edges_bunch d = Ok d' → stopper d' = stopper d.
Proof.
  unfold get_sub_dsp. intros H.
  repeat match type of H with
         | match ?x with _ => _ end = _ => destruct x; try done
         end.
  by simplify_eq.
Qed.

(** ** Default values *)

(** [self.dmap.node[data_id]['type'] == 'data'], without a [KeyError]. *)
Definition is_data_node (d : Dispatcher) (data_id : node_id) : Prop :=
  node_type (dmap d) data_id = Ok (VStr "data").

#[global] Instance exn_eq_dec : EqDecision exn.
Proof. solve_decision. Defined.

#[global] Instance res_eq_dec {A} `{EqDecision A} : EqDecision (res A).
Proof. solve_decision. Defined.

#[global] Instance is_data_node_dec d i : Decision (is_data_node d i).
Proof. unfold is_data_node. apply _. Defined.

(** A small dispatcher for the examples: the data node [a] with the default
    value 1, the function [f] from [a] to [b]. *)
Definition example_dsp : Dispatcher :=
  let d := Dispatcher_init None "Dispatcher" None false "" None in
  let d := (add_data (Some (Str "a"))
              (mkDataArgs (VNum 1) (VNum 0) false None None None None None
                          VNone ∅) d).2 in
  (add_function (Some (Str "f"))
     (mkFunctionArgs (VObj (Some "f") 7) (Some [Str "a"]) (Some [Str "b"])
                     VNone None None None None VNone ∅) d).2.

(** C7.  For a data node [data_id], [set_default_value] returns, leaves the
    graph and the defaults of the other ids as they are, and leaves
    [{value: v, initial_dist: dist}] as the default of [data_id], or no
    default at all when [v] is the sentinel [EMPTY]; for an id that is not
    a data node it raises [ValueError] and changes nothing. *)
Theorem set_default_value_spec (d : Dispatcher) (data_id : node_id)
    (v dist : value) :
  let r := set_default_value data_id v dist d in
  (is_data_node d data_id →
     r.1 = Ok tt ∧ dmap r.2 = dmap d
     ∧ (∀ k, k ≠ data_id → default_values r.2 !! k = default_values d !! k)
     ∧ default_values r.2 !! data_id =
         if decide (v = VTok EMPTY) then None else Some (mkDefault v dist))
  ∧ (¬ is_data_node d data_id →
     r = (Raise (ValueError_not_a_data_node data_id), d)).
Proof.
  unfold is_data_node, set_default_value. simpl. split.
  - intros ->. rewrite decide_True by done.
    destruct (decide (v = VTok EMPTY)); simpl; split_and!; try done.
    + intros k Hk. by rewrite lookup_delete_ne.
    + by rewrite lookup_delete_eq.
    + intros k Hk. by rewrite lookup_insert_ne.
    + by rewrite lookup_insert_eq.
  - intros Hn. destruct (node_type _ _) as [t|e]; [|done].
    rewrite decide_False; [done|]. intros ->. done.
Qed.

Lemma set_default_value_spec_witness :
  is_data_node example_dsp (Str "a")
  ∧ default_values (set_default_value (Str "a") (VNum 5) (VNum 2) example_dsp).2
      !! Str "a" = Some (mkDefault (VNum 5) (VNum 2))
  ∧ ¬ is_data_node example_dsp (Str "f")
  ∧ set_default_value (Str "f") (VNum 5) (VNum 2) example_dsp
    = (Raise (ValueError_not_a_data_node (Str "f")), example_dsp).
Proof.
  assert (is_data_node example_dsp (Str "a")) as Ha by (vm_compute; reflexivity).
  assert (¬ is_data_node example_dsp (Str "f")) as Hf by (vm_compute; discriminate).
  split; [exact Ha|]. split.
  - exact (proj2 (proj2 (proj2
      (proj1 (set_default_value_spec example_dsp (Str "a") (VNum 5) (VNum 2)) Ha)))).
  - split; [exact Hf|].
    exact (proj2 (set_default_value_spec example_dsp (Str "f") (VNum 5) (VNum 2)) Hf).
Defined.

(** ** The shared stopper *)

Lemma derived_stopper d : derived d → stopper d = Dispatcher_stopper.
Proof.
  induction 1 as [| d ? ? _ IH | d ? ? _ IH | d ? ? ? _ IH
                 | d c ? ? ? ? ? _ IH | d c ? ? ? ? ? _ IH
                 | d kw _ IH Hkw | d ? ? d' _ IH Hsub ].
  - done.
  - by rewrite add_data_stopper.
  - by rewrite add_function_stopper.
  - by rewrite set_default_value_stopper.
  - by rewrite (proj1 (add_dispatcher_stopper _ _ _ _ _ _ _)).
  - by rewrite (proj2 (add_dispatcher_stopper _ _ _ _ _ _ _)).
  - unfold copy_structure. simpl. by rewrite Hkw.
  - by rewrite (get_sub_dsp_stopper _ _ _ _ Hsub).
Qed.

(** C9.  A dispatcher constructed without a [stopper] argument holds the
    event of the class attribute; [copy_structure] called without a
    [stopper] keyword hands the stopper of the dispatcher to the copy; so
    every dispatcher derived without a stopper of its own holds the class
    event, and once that event is set each of them reads it as set. *)
Theorem default_stopper_shared :
  (∀ dmap name dv raises description,
     stopper (Dispatcher_init dmap name dv raises description None)
     = Dispatcher_stopper)
  ∧ (∀ d kw, kw_stopper kw = None → stopper (copy_structure kw d) = stopper d)
  ∧ (∀ d, derived d → stopper d = Dispatcher_stopper)
  ∧ (∀ σ d, derived d →
       Event_is_set (Event_set Dispatcher_stopper σ) (stopper d) = true).
Proof.
  split_and!.
  - done.
  - intros d kw Hkw. unfold copy_structure. simpl. by rewrite Hkw.
  - apply derived_stopper.
  - intros σ d Hd. rewrite (derived_stopper d Hd).
    unfold Event_is_set, Event_set. by rewrite lookup_insert_eq.
Qed.

Lemma default_stopper_shared_witness :
  derived example_dsp
  ∧ stopper (copy_structure no_kwargs example_dsp) = stopper example_dsp
  ∧ Event_is_set (Event_set Dispatcher_stopper ∅) (stopper example_dsp) = true.
Proof.
  assert (derived example_dsp) as Hd.
  { unfold example_dsp. apply derived_add_function, derived_add_data,
      derived_init. }
  destruct default_stopper_shared as (_ & Hcopy & _ & Hset).
  split; [exact Hd|]. split.
  - exact (Hcopy example_dsp no_kwargs eq_refl).
  - exact (Hset ∅ example_dsp Hd).
Defined.

(** ** [SubDispatch] *)

Lemma lookups_Some keys (m : gmap node_id value) vs :
  lookups keys m = Some vs ↔ Forall2 (λ k v, m !! k = Some v) keys vs.
Proof. apply mapM_Some. Qed.

Lemma lookups_is_Some keys (m : gmap node_id value) :
  (∀ k, k ∈ keys → is_Some (m !! k)) → is_Some (lookups keys m).
Proof. intros H. apply mapM_is_Some, Forall_forall. exact H. Qed.

Lemma lookups_None keys (m : gmap node_id value) :
  lookups keys m = None ↔ ∃ k, k ∈ keys ∧ m !! k = None.
Proof.
  unfold lookups. rewrite mapM_None, Exists_exists. done.
Qed.

(** The dictionary comprehension of [selector] is the restriction of the
    dictionary to the keys. *)
Lemma selected_dict_lookup keys (m : gmap node_id value) vs k :
  Forall2 (λ k v, m !! k = Some v) keys vs →
  (list_to_map (zip keys vs) : gmap node_id value) !! k
  = if decide (k ∈ keys) then m !! k else None.
Proof.
  induction 1 as [|k0 v0 keys vs Hk0 _ IH]; simpl.
  { apply lookup_empty. }
  rewrite lookup_insert. destruct (decide (k0 = k)) as [->|Hne].
  - rewrite decide_True by set_solver. done.
  - rewrite IH. destruct (decide (k ∈ keys)).
    + rewrite decide_True by set_solver. done.
    + rewrite decide_False by set_solver. done.
Qed.

Lemma combine_dicts_snoc dicts d :
  combine_dicts (dicts ++ [d]) = d ∪ combine_dicts dicts.
Proof. unfold combine_dicts. by rewrite foldl_snoc. Qed.

Lemma combine_dicts_lookup dicts k :
  combine_dicts dicts !! k = last_binding dicts k.
Proof.
  induction dicts as [|d dicts IH] using rev_ind; [done|].
  rewrite combine_dicts_snoc. unfold last_binding in *.
  rewrite omap_app, lookup_union. simpl.
  destruct (d !! k) as [v|] eqn:Hd.
  - rewrite last_snoc. by destruct (combine_dicts dicts !! k).
  - rewrite app_nil_r, IH. by destruct (last _).
Qed.

Section wrapper_properties.
Context {W : Type}.
Variable dispatch :
  Dispatcher → gmap node_id value → option (list node_id) → option value →
  option (gmap node_id value) → bool → bool → bool → bool → option loc →
  outcome W (Solution W).

(** C4, as the code has it.  A call merges its input dictionaries, a
    later dictionary winning over the earlier ones on the keys they share
    (every key has the value of the last dictionary that has it),
    dispatches the merged inputs and lets the errors of the dispatch
    through.  With the output type ['all'] it returns the whole solution,
    whether or not the named outputs are in it.  With another output
    type: when every named output is in the solution, it returns their
    values as a list in the declared order (['list']), as the single value
    or the tuple of them (['values']), or as the dictionary restricted to
    them; when some named output is missing it raises [DispatcherError]
    with the solution and the missing ids. *)
Theorem SubDispatch_call_spec (self : SubDispatch W)
    (input_dicts : list (gmap node_id value)) (_sol : option sol_ref) :
  ∃ i : gmap node_id value,
    (∀ k, i !! k = last_binding input_dicts k)
    ∧ let run := dispatch (sd_dsp self) i (sd_outputs self) (sd_cutoff self)
                   (sd_inputs_dist self) (sd_wildcard self) (sd_no_call self)
                   (sd_shrink self) (sd_rm_unused_nds self)
                   (parent_stopper _sol) in
  let call := SubDispatch_call dispatch self input_dicts _sol in
  (∀ e, run = Raises e → call = Raises e)
  ∧ (∀ solution, run = Returns solution →
     let sol := set_parent _sol solution in
     (sd_output_type self = "all" → call = Returns (RSolution sol))
     ∧ (∀ outs, sd_output_type self ≠ "all" → sd_outputs self = Some outs →
        ((∀ k, k ∈ outs → is_Some (sol_values solution !! k)) →
         ∃ vs, Forall2 (λ k v, sol_values solution !! k = Some v) outs vs
           ∧ if decide (sd_output_type self = "list")
             then call = Returns (RList vs)
             else if decide (sd_output_type self = "values")
             then call = Returns (match vs with [v] => RValue v | _ => RTuple vs end)
             else ∃ m, call = Returns (RDict m)
                    ∧ ∀ k, m !! k = if decide (k ∈ outs)
                                    then sol_values solution !! k else None)
        ∧ ((∃ k, k ∈ outs ∧ sol_values solution !! k = None) →
           ∃ missed, call = Raises (DispatcherError sol missed)
             ∧ ∀ k, k ∈ missed ↔ k ∈ outs ∧ sol_values solution !! k = None))).
Proof.
  exists (combine_dicts input_dicts). split; [apply combine_dicts_lookup|].
  unfold SubDispatch_call. simpl. split.
  { intros e ->. done. }
  intros solution ->. unfold _return. split.
  { intros ->. done. }
  intros outs Hty ->. rewrite decide_True by done. simpl. split.
  - intros Hall. destruct (lookups_is_Some _ _ Hall) as [vs Hvs].
    exists vs. split; [by apply lookups_Some|].
    unfold selector. rewrite Hvs. simpl.
    repeat case_decide; try done.
    exists (list_to_map (zip outs vs)). split; [done|].
    intros k. apply selected_dict_lookup. by apply lookups_Some.
  - intros Hmiss. apply lookups_None in Hmiss as Hnone.
    unfold selector. rewrite Hnone. simpl.
    eexists. split.
    { repeat case_decide; reflexivity. }
    intros k. rewrite list_elem_of_filter, elem_of_remove_dups. tauto.
Qed.
End wrapper_properties.

(** An engine for the examples: it calls nothing and gives its inputs back
    as the solution. *)
Definition inputs_only_dispatch :
    Dispatcher → gmap node_id value → option (list node_id) → option value →
    option (gmap node_id value) → bool → bool → bool → bool → option loc →
    outcome unit (Solution unit) :=
  λ dsp inputs _ _ _ _ _ _ _ event,
    Returns (mkSolution inputs inputs (default (stopper dsp) event) None tt).

Definition example_SubDispatch (outputs : list node_id) (output_type : string)
  : SubDispatch unit :=
  mkSubDispatch unit example_dsp (Some outputs) None None false false false
    false output_type [Str "a"]
    (mkSolution ∅ {[Str "a" := VNone]} Dispatcher_stopper None tt).

Lemma SubDispatch_call_spec_witness :
  SubDispatch_call inputs_only_dispatch
    (example_SubDispatch [Str "a"] "values")
    [{[Str "a" := VNum 1]}; {[Str "a" := VNum 3]}] None
  = Returns (RValue (VNum 3))
  ∧ ∃ sol missed,
      SubDispatch_call inputs_only_dispatch
        (example_SubDispatch [Str "a"; Str "b"] "list")
        [{[Str "a" := VNum 1]}; {[Str "a" := VNum 3]}] None
      = Raises (DispatcherError sol missed)
      ∧ sol_values sol !! Str "a" = Some (VNum 3)
      ∧ Str "b" ∈ missed.
Proof.
  split.
  - destruct (SubDispatch_call_spec inputs_only_dispatch
                (example_SubDispatch [Str "a"] "values")
                [{[Str "a" := VNum 1]}; {[Str "a" := VNum 3]}] None)
      as (i & Hi & _ & H).
    destruct (H _ eq_refl) as [_ H'].
    destruct (H' [Str "a"] ltac:(discriminate) eq_refl) as [Hok _].
    destruct Hok as (vs & Hvs & Hcall).
    { intros k ->%list_elem_of_singleton. simpl. rewrite Hi. by eexists. }
    rewrite decide_False in Hcall by discriminate.
    rewrite decide_True in Hcall by reflexivity.
    inversion Hvs as [|???? Hv Hnil]; subst. inversion Hnil; subst.
    simpl in Hv. rewrite Hi in Hv. injection Hv as <-. exact Hcall.
  - destruct (SubDispatch_call_spec inputs_only_dispatch
                (example_SubDispatch [Str "a"; Str "b"] "list")
                [{[Str "a" := VNum 1]}; {[Str "a" := VNum 3]}] None)
      as (i & Hi & _ & H).
    destruct (H _ eq_refl) as [_ H'].
    destruct (H' [Str "a"; Str "b"] ltac:(discriminate) eq_refl) as [_ Hmiss].
    destruct Hmiss as (missed & Hcall & Hm).
    { exists (Str "b"). split; [by right; left|]. simpl. by rewrite Hi. }
    eexists _, missed. split_and!; [exact Hcall| |].
    + simpl. by rewrite Hi.
    + apply Hm. split; [by right; left|]. simpl. by rewrite Hi.
Defined.

(** C4 as stated fails: with the output type ['all'] (the default) and the
    named output [c] missing from the solution, the call returns the whole
    solution and raises nothing. *)
Lemma SubDispatch_call_all_counterexample :
  sd_outputs (example_SubDispatch [Str "c"] "all") = Some [Str "c"]
  ∧ SubDispatch_call inputs_only_dispatch
      (example_SubDispatch [Str "c"] "all") [{[Str "a" := VNum 3]}] None
    = Returns (RSolution (mkSolution {[Str "a" := VNum 3]} {[Str "a" := VNum 3]}
                                     Dispatcher_stopper None tt))
  ∧ ({[Str "a" := VNum 3]} : gmap node_id value) !! Str "c" = None.
Proof. split_and!; reflexivity. Qed.

(** ** [SubDispatchFunction] *)

Lemma next_or_None_Some {A} (P : A → Prop) `{∀ x, Decision (P x)} l i :
  next_or_None P l = Some i → i ∈ l ∧ P i.
Proof.
  unfold next_or_None. intros Hh.
  apply head_Some_elem_of in Hh. apply list_elem_of_filter in Hh. tauto.
Qed.

Lemma next_or_None_None {A} (P : A → Prop) `{∀ x, Decision (P x)} l :
  next_or_None P l = None ↔ ∀ i, i ∈ l → ¬ P i.
Proof.
  unfold next_or_None. rewrite head_None. split.
  - intros Hnil i Hi HP. eapply filter_nil_not_elem_of; eauto.
  - intros Hall. destruct (filter P l) as [|x l'] eqn:Hf; [done|].
    assert (x ∈ filter P l) as Hx by (rewrite Hf; left).
    apply list_elem_of_filter in Hx as [HP Hx]. by destruct (Hall x Hx).
Qed.

Lemma elem_of_sorted i l : i ∈ sorted l ↔ i ∈ l.
Proof. unfold sorted. by rewrite merge_sort_Permutation. Qed.

(** The two checks on keywords that are all true as conditions (none is
    the empty string): a keyword bound by a positional argument raises the
    [TypeError] of multiple values; else a keyword that names no node of
    the dispatcher raises the [TypeError] of an unexpected keyword; else
    the checks pass. *)
Lemma check_kwargs_spec {W} dsp inputs (kwargs : list (node_id * value)) :
  (∀ k, k ∈ kwargs.*1 → id_truthy k = true) →
  ((∃ k, k ∈ kwargs.*1 ∧ is_Some (inputs !! k)) →
     ∃ i, check_kwargs (W:=W) dsp inputs kwargs
          = Some (TypeError_multiple_values (name dsp) i)
        ∧ i ∈ kwargs.*1 ∧ is_Some (inputs !! i))
  ∧ ((∀ k, k ∈ kwargs.*1 → inputs !! k = None) →
     (∃ k, k ∈ kwargs.*1 ∧ nodes dsp !! k = None) →
     ∃ i, check_kwargs (W:=W) dsp inputs kwargs
          = Some (TypeError_unexpected_keyword (name dsp) i)
        ∧ i ∈ kwargs.*1 ∧ nodes dsp !! i = None)
  ∧ ((∀ k, k ∈ kwargs.*1 → inputs !! k = None ∧ is_Some (nodes dsp !! k)) →
     check_kwargs (W:=W) dsp inputs kwargs = None).
Proof.
  intros Htrue. unfold check_kwargs. split_and!.
  - intros (k & Hk & Hin).
    destruct (next_or_None _ kwargs.*1) as [i|] eqn:Hn.
    + apply next_or_None_Some in Hn as [Hi HP].
      rewrite (Htrue i Hi). eauto.
    + rewrite next_or_None_None in Hn. by destruct (Hn k Hk).
  - intros Hfree (k & Hk & Hunk).
    destruct (next_or_None _ kwargs.*1) as [i|] eqn:Hn.
    { apply next_or_None_Some in Hn as [Hi [x HP]].
      rewrite (Hfree i Hi) in HP. done. }
    destruct (next_or_None _ (sorted kwargs.*1)) as [i|] eqn:Hs.
    + apply next_or_None_Some in Hs as [Hi HP].
      rewrite elem_of_sorted in Hi. rewrite (Htrue i Hi). eauto.
    + rewrite next_or_None_None in Hs.
      destruct (Hs k); [by apply elem_of_sorted|done].
  - intros Hok.
    destruct (next_or_None _ kwargs.*1) as [i|] eqn:Hn.
    { apply next_or_None_Some in Hn as [Hi [x HP]].
      rewrite (proj1 (Hok i Hi)) in HP. done. }
    destruct (next_or_None _ (sorted kwargs.*1)) as [i|] eqn:Hs; [|done].
    apply next_or_None_Some in Hs as [Hi HP].
    rewrite elem_of_sorted in Hi. destruct (proj2 (Hok i Hi)) as [x Hx].
    rewrite HP in Hx. done.
Qed.

(** An engine for the examples: the inputs are the solution. *)
Definition inputs_only_init_workflow (input_values : gmap node_id value)
    (inputs_dist : option (gmap node_id value)) (sol : Solution unit)
  : Solution unit :=
  mkSolution input_values input_values (sol_stopper sol) (sol_parent sol) tt.

Definition inputs_only_run (sol : Solution unit)
  : outcome unit (Solution unit) :=
  Returns sol.

(** C5 at the failing input.  The function over the input [a] of the
    example dispatcher is called as [f(1, **{'': 2})] and as
    [f(1, **{'': 2, 'zzz': 3})]: the empty keyword names no node of the
    dispatcher (nor does [zzz]), yet the check finds nothing, because the
    keyword it found is the empty string and [if i:] takes it for [None];
    the call goes on to the dispatch and returns. *)
Lemma SubDispatchFunction_call_empty_keyword :
  let f := example_SubDispatch [Str "a"] "values" in
  nodes example_dsp !! Str "" = None
  ∧ nodes example_dsp !! Str "zzz" = None
  ∧ check_kwargs (W:=unit) example_dsp (map_list [Str "a"] [VNum 1])
      [(Str "", VNum 2)] = None
  ∧ check_kwargs (W:=unit) example_dsp (map_list [Str "a"] [VNum 1])
      [(Str "", VNum 2); (Str "zzz", VNum 3)] = None
  ∧ SubDispatchFunction_call id inputs_only_init_workflow inputs_only_run f
      [VNum 1] [(Str "", VNum 2)] None = Returns (RValue (VNum 1))
  ∧ SubDispatchFunction_call id inputs_only_init_workflow inputs_only_run f
      [VNum 1] [(Str "zzz", VNum 3)] None
    = Raises (TypeError_unexpected_keyword "Dispatcher" (Str "zzz")).
Proof. split_and!; vm_compute; reflexivity. Qed.

(** ** Unused node ids *)

Lemma string_snoc_inj (s1 s2 : string) (c : string) :
  String.length c = 1 → s1 +:+ c = s2 +:+ c → s1 = s2.
Proof.
  intros Hc. revert s2.
  induction s1 as [|a s1 IH]; intros [|b s2] Heq; simpl in *.
  - done.
  - destruct c as [|x [|??]]; simplify_eq/=. by destruct s2.
  - destruct c as [|x [|??]]; simplify_eq/=. by destruct s1.
  - injection Heq as -> Heq. f_equal. by apply IH.
Qed.

Lemma node_id_format_inj guess : Inj (=) (=) (node_id_format guess).
Proof.
  intros n m Heq. unfold node_id_format in Heq.
  injection Heq as Heq.
  apply (inj (String.app _)) in Heq. apply (inj (String.app _)) in Heq.
  apply string_snoc_inj in Heq; [|done].
  by apply (inj pretty) in Heq.
Qed.

Lemma unused_from_Some g guess n fuel x :
  unused_from g guess n fuel = Some x →
  node g !! x = None ∧ ∃ i, x = node_id_format guess i.
Proof.
  revert n. induction fuel as [|fuel IH]; intros n; simpl; [done|].
  unfold has_node. case_bool_decide as Hn.
  - apply IH.
  - intros [= <-]. split; [|by eexists].
    by apply eq_None_not_Some.
Qed.

Lemma unused_from_None g guess n fuel :
  unused_from g guess n fuel = None →
  ∀ i, n ≤ i < n + fuel → is_Some (node g !! node_id_format guess i).
Proof.
  revert n. induction fuel as [|fuel IH]; intros n; simpl; [lia|].
  unfold has_node. case_bool_decide as Hn; [|done].
  intros Hnone i Hi. destruct (decide (i = n)) as [->|]; [done|].
  apply (IH (S n)); [done|lia].
Qed.

(** The search of [get_unused_node_id] ends: the graph cannot hold all of
    [size + 1] different guesses. *)
Lemma unused_from_total g guess :
  is_Some (unused_from g guess 0 (S (size (node g)))).
Proof.
  destruct (unused_from _ _ _ _) as [x|] eqn:Hu; [by eexists|].
  exfalso.
  pose proof (unused_from_None _ _ _ _ Hu) as Hall.
  set (l := node_id_format guess <$> seq 0 (S (size (node g)))).
  assert (NoDup l) as Hnd.
  { apply (NoDup_fmap_2 _ (Inj0:=node_id_format_inj guess)), NoDup_seq. }
  assert (list_to_set l ⊆ dom (node g)) as Hsub.
  { intros x. rewrite elem_of_list_to_set. unfold l.
    intros (i & -> & Hi)%list_elem_of_fmap.
    apply elem_of_seq in Hi. apply elem_of_dom, Hall. lia. }
  apply subseteq_size in Hsub.
  rewrite size_list_to_set, size_dom in Hsub by done.
  unfold l in Hsub. rewrite length_fmap, length_seq in Hsub. lia.
Qed.

Lemma get_unused_node_id_unused g guess :
  node g !! get_unused_node_id g guess = None.
Proof.
  unfold get_unused_node_id, has_node. case_bool_decide as Hg.
  - destruct (unused_from_total g guess) as [x Hx]. rewrite Hx. simpl.
    by apply unused_from_Some in Hx as [? _].
  - by apply eq_None_not_Some.
Qed.


Lemma get_unused_node_id_free g guess :
  node g !! guess = None → get_unused_node_id g guess = guess.
Proof.
  intros Hg. unfold get_unused_node_id, has_node.
  rewrite bool_decide_eq_false_2; [done|]. rewrite Hg. by intros [].
Qed.

(** ** Adding data nodes *)

Arguments special_data : simpl never.
Arguments data_attr_dict : simpl never.
Arguments function_attr_dict : simpl never.
Arguments get_unused_node_id : simpl never.

Lemma lookup_set_opt_ne k v (a : attrs) k' :
  k ≠ k' → set_opt k v a !! k' = a !! k'.
Proof. intros. destruct v; simpl; [by rewrite lookup_insert_ne|done]. Qed.

Lemma lookup_set_if_ne k v (a : attrs) k' :
  k ≠ k' → set_if k v a !! k' = a !! k'.
Proof.
  intros. unfold set_if. destruct (truthy v); [by rewrite lookup_insert_ne|done].
Qed.

Lemma special_data_kwargs data_id a :
  da_kwargs (special_data data_id a) = da_kwargs a.
Proof. by destruct data_id as [[[]|]|]. Qed.

Lemma data_attr_dict_type index a :
  da_kwargs a !! "type" = None →
  data_attr_dict index a !! "type" = Some (VStr "data").
Proof.
  intros Hk. unfold data_attr_dict.
  rewrite lookup_union_r by done.
  rewrite lookup_set_if_ne by done.
  rewrite !lookup_set_opt_ne by done.
  by rewrite lookup_insert_eq.
Qed.

Lemma node_type_Ok g n t :
  node_type g n = Ok t ↔ ∃ a, node g !! n = Some a ∧ a !! "type" = Some t.
Proof.
  unfold node_type. split.
  - destruct (node g !! n) as [a|]; [|done].
    destruct (a !! "type") eqn:?; [|done]. intros [= ->]. eauto.
  - intros (a & -> & ->). done.
Qed.

(** The state a successful [add_data] leaves, up to the defaults. *)
Definition added (i : node_id) (attr : attrs) (dv : gmap node_id default_entry)
    (d : Dispatcher) : Dispatcher :=
  mkDispatcher (mkDiGraph (<[i := attr]> (nodes d)) (edge (dmap d)))
    (name d) (doc d) dv (weight d) (raises_ d) (stopper d) (S (counter d)).

Lemma add_data_new d i args :
  nodes d !! i = None → da_kwargs args !! "type" = None →
  ∃ attr dv,
    add_data (Some i) args d = (Ok i, added i attr dv d)
    ∧ attr !! "type" = Some (VStr "data").
Proof.
  intros Hi Hk.
  set (a := special_data (Some i) args).
  set (attr := data_attr_dict (counter d) a).
  assert (attr !! "type" = Some (VStr "data")) as Hty.
  { apply data_attr_dict_type. unfold a. by rewrite special_data_kwargs. }
  unfold add_data, bind, next_index, get, ret, modify. simpl.
  unfold has_node. simpl. fold (nodes d).
  rewrite bool_decide_eq_false_2 by (rewrite Hi; by intros []).
  simpl. unfold add_node. simpl. fold (nodes d). rewrite Hi.
  unfold set_default_value, node_type. simpl.
  fold a. fold attr. rewrite lookup_insert_eq, Hty.
  rewrite decide_True by done.
  destruct (decide (da_default_value a = VTok EMPTY)); simpl;
    eexists attr, _; (split; [reflexivity|done]).
Qed.

Lemma add_data_untyped d i args a :
  nodes d !! i = Some a → a !! "type" = None →
  add_data (Some i) args d
  = (Raise (KeyError "type"), with_counter (S (counter d)) d).
Proof.
  intros Hi Ha.
  unfold add_data, bind, next_index, get, ret, modify. simpl.
  unfold has_node, node_type. simpl. fold (nodes d). rewrite Hi, Ha.
  rewrite bool_decide_eq_true_2 by done. done.
Qed.

Lemma add_data_not_data d i args a t :
  nodes d !! i = Some a → a !! "type" = Some t → t ≠ VStr "data" →
  add_data (Some i) args d
  = (Raise (ValueError_override_function i), with_counter (S (counter d)) d).
Proof.
  intros Hi Ha Ht.
  unfold add_data, bind, next_index, get, ret, modify. simpl.
  unfold has_node, node_type. simpl. fold (nodes d). rewrite Hi, Ha.
  rewrite bool_decide_eq_true_2 by done.
  rewrite decide_False by done. done.
Qed.

(** The nodes of the graph after [set_default_value]. *)
Lemma set_default_value_dmap data_id v dist d :
  dmap (set_default_value data_id v dist d).2 = dmap d.
Proof.
  unfold set_default_value. destruct (node_type _ _); [|done].
  repeat case_decide; done.
Qed.

(** The kind of every node is kept by [add_data], whatever the outcome,
    when the call passes no [type] keyword. *)
Definition kinds_kept (d d' : Dispatcher) : Prop :=
  ∀ j a, nodes d !! j = Some a →
    ∃ a', nodes d' !! j = Some a' ∧ a' !! "type" = a !! "type".

#[local] Instance kinds_kept_preorder : PreOrder kinds_kept.
Proof.
  split.
  - intros d j a Hj. eauto.
  - intros d1 d2 d3 H12 H23 j a Hj.
    destruct (H12 j a Hj) as (a' & Hj' & Ha').
    destruct (H23 j a' Hj') as (a'' & Hj'' & Ha'').
    exists a''. split; [done|congruence].
Qed.



(** ** Adding the edges of a function node *)

(** Every edge of a networkx graph joins two of its nodes. *)
Definition graph_wf (g : DiGraph) : Prop :=
  map_Forall (λ e _, is_Some (node g !! e.1) ∧ is_Some (node g !! e.2))
             (edge g).

#[global] Instance graph_wf_dec g : Decision (graph_wf g).
Proof. unfold graph_wf. apply _. Defined.

Definition add_edge_dir (input : bool) (u fun_id : node_id)
    (ws : option (gmap node_id value)) (g : DiGraph) : DiGraph :=
  if input then add_edge u fun_id (edge_attr ws u) g
  else add_edge fun_id u (edge_attr ws u) g.

Definition edge_dir (input : bool) (u fun_id : node_id) : node_id * node_id :=
  if input then (u, fun_id) else (fun_id, u).

Lemma is_data_node_weaken d d' u :
  nodes d ⊆ nodes d' → is_data_node d u → is_data_node d' u.
Proof.
  unfold is_data_node. rewrite !node_type_Ok.
  intros Hsub (a & Ha & Ht). exists a. split; [|done].
  by eapply lookup_weaken.
Qed.

Lemma touch_node_subseteq n (nd : gmap node_id attrs) : nd ⊆ touch_node n nd.
Proof.
  unfold touch_node. destruct (nd !! n) eqn:?; [done|].
  by apply insert_subseteq.
Qed.

Lemma touch_node_bound n (nd : gmap node_id attrs) :
  is_Some (nd !! n) → touch_node n nd = nd.
Proof. unfold touch_node. by intros [a ->]. Qed.

Lemma touch_node_is_Some n (nd : gmap node_id attrs) :
  is_Some (touch_node n nd !! n).
Proof.
  unfold touch_node. destruct (nd !! n) eqn:Hn; [by rewrite Hn|].
  by rewrite lookup_insert_eq.
Qed.


Lemma add_edge_dir_nodes_bound input u fun_id ws g :
  is_Some (node g !! u) → is_Some (node g !! fun_id) →
  node (add_edge_dir input u fun_id ws g) = node g.
Proof.
  intros Hu Hf. unfold add_edge_dir. destruct input; simpl.
  - rewrite (touch_node_bound u) by done. by rewrite touch_node_bound.
  - rewrite (touch_node_bound fun_id) by done. by rewrite touch_node_bound.
Qed.

Lemma add_edge_dir_edge input u fun_id ws g e :
  edge (add_edge_dir input u fun_id ws g) !! e
  = if decide (edge_dir input u fun_id = e)
    then Some (edge_attr ws u ∪ default ∅ (edge g !! e))
    else edge g !! e.
Proof.
  unfold add_edge_dir, edge_dir. destruct input; simpl;
    rewrite lookup_insert; case_decide; by subst.
Qed.

Lemma remove_nodes_from_node l g j :
  node (remove_nodes_from l g) !! j
  = if decide (j ∈ l) then None else node g !! j.
Proof.
  unfold remove_nodes_from. revert g.
  induction l as [|x l IH]; intros g; simpl.
  { done. }
  rewrite IH. simpl. destruct (decide (j = x)) as [->|Hne].
  - rewrite lookup_delete_eq. rewrite (decide_True (P:=x ∈ x :: l)) by left.
    by case_decide.
  - rewrite lookup_delete_ne by done.
    destruct (decide (j ∈ l)).
    + by rewrite decide_True by (by right).
    + rewrite decide_False; [done|]. by intros [?|?]%elem_of_cons.
Qed.

Lemma remove_nodes_from_edge l g u v :
  edge (remove_nodes_from l g) !! (u, v)
  = if decide (u ∈ l ∨ v ∈ l) then None else edge g !! (u, v).
Proof.
  unfold remove_nodes_from. revert g.
  induction l as [|x l IH]; intros g; simpl.
  { done. }
  rewrite IH. simpl.
  destruct (decide (u ∈ l ∨ v ∈ l)) as [Hl|Hl].
  { rewrite decide_True; [done|]. destruct Hl; [left|right]; by right. }
  destruct (decide (u = x ∨ v = x)) as [Hx|Hx].
  - rewrite decide_True by (destruct Hx as [->| ->]; [left|right]; left).
    apply map_lookup_filter_None. right. intros a _. simpl.
    unfold incident. simpl. tauto.
  - rewrite decide_False.
    2: { intros [[?|?]%elem_of_cons|[?|?]%elem_of_cons]; tauto. }
    destruct (edge g !! (u, v)) as [a|] eqn:He.
    + apply map_lookup_filter_Some. split; [done|]. simpl.
      unfold incident. simpl. tauto.
    + apply map_lookup_filter_None. by left.
Qed.

(** One turn of the loop of [add_func_edges]. *)
Lemma add_func_edges_cons fun_id u us ws input dn d :
  add_func_edges fun_id (u :: us) ws input dn d
  = match node_type (dmap d) u with
    | Ok t =>
        if decide (t = VStr "data") then
          add_func_edges fun_id us ws input dn
            (with_dmap (add_edge_dir input u fun_id ws (dmap d)) d)
        else (Raise (ValueError_invalid_io input u),
              with_dmap (remove_nodes_from (dn ++ [fun_id]) (dmap d)) d)
    | Raise _ =>
        match add_data (Some u) data_defaults d with
        | (Ok v, d1) =>
            add_func_edges fun_id us ws input (dn ++ [v])
              (with_dmap (add_edge_dir input u fun_id ws (dmap d1)) d1)
        | (Raise e, d1) => (Raise e, d1)
        end
    end.
Proof.
  simpl. unfold bind at 1. unfold get at 1. simpl.
  destruct (node_type (dmap d) u) as [t|e].
  - case_decide.
    + unfold bind, ret, modify, add_edge_dir. simpl. by destruct input.
    + unfold bind, modify, raise. simpl. done.
  - unfold bind at 1. unfold bind at 1.
    destruct (add_data (Some u) data_defaults d) as [[v|e'] d1]; [|done].
    unfold ret, bind, modify, add_edge_dir. simpl. by destruct input.
Qed.

Lemma add_func_edges_step fun_id u us ws input dn d :
  let go := add_func_edges fun_id (u :: us) ws input dn d in
  (is_data_node d u
   ∧ go = add_func_edges fun_id us ws input dn
            (with_dmap (add_edge_dir input u fun_id ws (dmap d)) d))
  ∨ (∃ t, node_type (dmap d) u = Ok t ∧ t ≠ VStr "data"
     ∧ go = (Raise (ValueError_invalid_io input u),
             with_dmap (remove_nodes_from (dn ++ [fun_id]) (dmap d)) d))
  ∨ (nodes d !! u = None
     ∧ ∃ attr dv, attr !! "type" = Some (VStr "data")
       ∧ go = add_func_edges fun_id us ws input (dn ++ [u])
                (with_dmap
                   (add_edge_dir input u fun_id ws (dmap (added u attr dv d)))
                   (added u attr dv d)))
  ∨ (∃ a, nodes d !! u = Some a ∧ a !! "type" = None
     ∧ go = (Raise (KeyError "type"), with_counter (S (counter d)) d)).
Proof.
  intros go. unfold go. rewrite add_func_edges_cons.
  destruct (node_type (dmap d) u) as [t|e] eqn:Ht.
  - destruct (decide (t = VStr "data")) as [->|Hne].
    + left. done.
    + right. left. exists t. done.
  - right. right. destruct (nodes d !! u) as [a|] eqn:Hu.
    + right. exists a.
      assert (a !! "type" = None) as Ha.
      { unfold node_type in Ht. fold (nodes d) in Ht. rewrite Hu in Ht.
        by destruct (a !! "type"). }
      split_and!; [done..|].
      by rewrite (add_data_untyped d u data_defaults a Hu Ha).
    + left. split; [done|].
      destruct (add_data_new d u data_defaults Hu eq_refl)
        as (attr & dv & Hadd & Hty).
      exists attr, dv. split; [done|]. by rewrite Hadd.
Qed.




(** What a call that returns has done: the nodes it found are as they were,
    the nodes it added are data nodes, the edges it found are still edges,
    every id of the bunch is a data node joined to the function node. *)
Lemma add_func_edges_Ok fun_id ws input nodes_bunch :
  ∀ dn d dn' d',
    add_func_edges fun_id nodes_bunch ws input dn d = (Ok dn', d') →
    is_Some (nodes d !! fun_id) →
    nodes d ⊆ nodes d'
    ∧ (∀ j, nodes d' !! j = nodes d !! j ∨ is_data_node d' j)
    ∧ (∀ e, is_Some (edge (dmap d) !! e) → is_Some (edge (dmap d') !! e))
    ∧ (∀ u, u ∈ nodes_bunch →
         is_Some (edge (dmap d') !! edge_dir input u fun_id)
         ∧ is_data_node d' u).
Proof.
  induction nodes_bunch as [|u us IH]; intros dn d dn' d' Hrun Hf.
  { simpl in Hrun. injection Hrun as <- <-. split_and!; [done|by left|done|].
    by intros u ?%not_elem_of_nil. }
  assert (∀ d1,
    add_func_edges fun_id us ws input (if decide (is_data_node d u) then dn else dn ++ [u])
      (with_dmap (add_edge_dir input u fun_id ws (dmap d1)) d1) = (Ok dn', d') →
    nodes d ⊆ nodes d1 → edge (dmap d1) = edge (dmap d) →
    is_data_node d1 u →
    (∀ j, j ≠ u → nodes d1 !! j = nodes d !! j) →
    nodes d ⊆ nodes d'
    ∧ (∀ j, nodes d' !! j = nodes d !! j ∨ is_data_node d' j)
    ∧ (∀ e, is_Some (edge (dmap d) !! e) → is_Some (edge (dmap d') !! e))
    ∧ (∀ u0, u0 ∈ u :: us →
         is_Some (edge (dmap d') !! edge_dir input u0 fun_id)
         ∧ is_data_node d' u0)) as Hstep.
  { intros d1 Hrun1 Hsub1 He1 Hu1 Hother.
    assert (is_Some (nodes d1 !! fun_id)) as Hf1
      by (by eapply lookup_weaken_is_Some).
    assert (is_Some (nodes d1 !! u)) as Hu1'.
    { apply node_type_Ok in Hu1 as (a & Ha & _). by exists a. }
    apply IH in Hrun1 as (H1 & Hn & H2 & H3).
    2: { unfold nodes at 1. simpl dmap.
         by rewrite add_edge_dir_nodes_bound. }
    unfold nodes at 1 in H1. simpl dmap in H1.
    rewrite add_edge_dir_nodes_bound in H1 by done. fold (nodes d1) in H1.
    split_and!.
    - by etrans.
    - intros j. destruct (decide (j = u)) as [->|Hne].
      { right. by eapply is_data_node_weaken. }
      destruct (Hn j) as [Hj|Hj]; [left|by right].
      rewrite Hj. unfold nodes at 1. simpl dmap.
      rewrite add_edge_dir_nodes_bound by done. by apply Hother.
    - intros e He. apply H2. simpl. rewrite add_edge_dir_edge.
      case_decide; [done|]. by rewrite He1.
    - intros u0 [->|Hu0]%elem_of_cons; [|by apply H3]. split.
      + apply H2. simpl. rewrite add_edge_dir_edge.
        by rewrite decide_True.
      + by eapply is_data_node_weaken. }
  destruct (add_func_edges_step fun_id u us ws input dn d)
    as [[Hu Heq]|[(t & Ht & Hne & Heq)|[(Hu & attr & dv & Hty & Heq)
       |(a & Hu & Ha & Heq)]]]; rewrite Heq in Hrun; try done.
  - apply (Hstep d); [by rewrite decide_True|done..].
  - apply (Hstep (added u attr dv d)).
    + rewrite decide_False; [done|].
      unfold is_data_node. rewrite node_type_Ok. intros (a & Ha & _).
      fold (nodes d) in Ha. congruence.
    + simpl. by apply insert_subseteq.
    + done.
    + unfold is_data_node. rewrite node_type_Ok. exists attr. simpl.
      by rewrite lookup_insert_eq.
    + intros j Hj.
      change (nodes (added u attr dv d)) with (<[u:=attr]> (nodes d)).
      by rewrite lookup_insert_ne.
Qed.


(** ** Adding function nodes *)

Lemma ensure_token_spec t d :
  ∃ d1, ensure_token t d = (Ok tt, d1)
    ∧ nodes d ⊆ nodes d1
    ∧ edge (dmap d1) = edge (dmap d)
    ∧ is_Some (nodes d1 !! Tok t)
    ∧ (nodes d !! Tok t = None → is_data_node d1 (Tok t))
    ∧ (∀ j, j ≠ Tok t → nodes d1 !! j = nodes d !! j).
Proof.
  unfold ensure_token, bind, get. simpl.
  destruct (nodes d !! Tok t) as [a|] eqn:Ht.
  - exists d. rewrite Ht. split_and!; try done.
  - destruct (add_data_new d (Tok t) data_defaults Ht eq_refl)
      as (attr & dv & -> & Hty).
    eexists. split; [reflexivity|].
    change (nodes (added (Tok t) attr dv d)) with (<[Tok t:=attr]> (nodes d)).
    split_and!.
    + by apply insert_subseteq.
    + done.
    + by rewrite lookup_insert_eq.
    + intros _. unfold is_data_node. rewrite node_type_Ok. exists attr.
      simpl. by rewrite lookup_insert_eq.
    + intros j Hj. by rewrite lookup_insert_ne.
Qed.

(** The dispatcher after the dummy input or output is set. *)
Definition token_state (o : option (list node_id)) (t : Token)
    (d : Dispatcher) : Dispatcher :=
  match o with
  | None => (ensure_token t d).2
  | Some _ => d
  end.

Definition function_name (function_id : option node_id) (a : function_args)
  : option node_id :=
  match function_id with
  | Some i => Some i
  | None => Str <$> func_name (fa_function a)
  end.

Lemma add_function_unfold function_id a d :
  let d1 := token_state (fa_inputs a) START d in
  let d2 := token_state (fa_outputs a) SINK d1 in
  let inputs := default [Tok START] (fa_inputs a) in
  let outputs := default [Tok SINK] (fa_outputs a) in
  let attr := function_attr_dict (counter d2) inputs outputs a in
  add_function function_id a d =
    match function_name function_id a with
    | None => (Raise ValueError_invalid_function_id,
               with_counter (S (counter d2)) d2)
    | Some fname =>
        let fun_id := get_unused_node_id (dmap d2) fname in
        let d3 := with_dmap (add_node fun_id attr (dmap d2))
                    (with_counter (S (counter d2)) d2) in
        match add_func_edges fun_id inputs (fa_inp_weight a) true [] d3 with
        | (Ok n_data, d4) =>
            match add_func_edges fun_id outputs (fa_out_weight a) false
                    n_data d4 with
            | (Ok _, d5) => (Ok fun_id, d5)
            | (Raise e, d5) => (Raise e, d5)
            end
        | (Raise e, d4) => (Raise e, d4)
        end
    end.
Proof.
  unfold add_function, token_state.
  destruct (fa_inputs a) as [ins|]; simpl.
  - destruct (fa_outputs a) as [outs|]; simpl.
    + unfold bind, ret, next_index, get, modify. simpl.
      destruct function_id as [i|]; simpl.
      * repeat destruct (add_func_edges _ _ _ _ _ _) as [[]]; done.
      * destruct (func_name _); simpl; [|done].
        repeat destruct (add_func_edges _ _ _ _ _ _) as [[]]; done.
    + destruct (ensure_token_spec SINK d) as (d1 & Hd1 & _).
      unfold bind at 1. unfold bind at 1. unfold bind at 1. unfold ret at 1.
      rewrite Hd1. simpl.
      unfold bind, ret, next_index, get, modify. simpl.
      destruct function_id as [i|]; simpl.
      * repeat destruct (add_func_edges _ _ _ _ _ _) as [[]]; done.
      * destruct (func_name _); simpl; [|done].
        repeat destruct (add_func_edges _ _ _ _ _ _) as [[]]; done.
  - destruct (ensure_token_spec START d) as (d1 & Hd1 & _).
    unfold bind at 1. unfold bind at 1. unfold bind at 1. unfold ret at 1.
    rewrite Hd1. simpl.
    destruct (fa_outputs a) as [outs|]; simpl.
    + unfold bind, ret, next_index, get, modify. simpl.
      destruct function_id as [i|]; simpl.
      * repeat destruct (add_func_edges _ _ _ _ _ _) as [[]]; done.
      * destruct (func_name _); simpl; [|done].
        repeat destruct (add_func_edges _ _ _ _ _ _) as [[]]; done.
    + destruct (ensure_token_spec SINK d1) as (d2 & Hd2 & _).
      unfold bind at 1. unfold bind at 1. unfold bind at 1. unfold ret at 1.
      rewrite Hd2. simpl.
      unfold bind, ret, next_index, get, modify. simpl.
      destruct function_id as [i|]; simpl.
      * repeat destruct (add_func_edges _ _ _ _ _ _) as [[]]; done.
      * destruct (func_name _); simpl; [|done].
        repeat destruct (add_func_edges _ _ _ _ _ _) as [[]]; done.
Qed.

Lemma token_state_spec o t d :
  let d1 := token_state o t d in
  nodes d ⊆ nodes d1
  ∧ edge (dmap d1) = edge (dmap d)
  ∧ (o = None → is_Some (nodes d1 !! Tok t)
                ∧ (nodes d !! Tok t = None → is_data_node d1 (Tok t)))
  ∧ (∀ j, nodes d1 !! j = nodes d !! j ∨ (o = None ∧ j = Tok t)).
Proof.
  unfold token_state. destruct o as [l|]; simpl.
  { split_and!; [done..|by left]. }
  destruct (ensure_token_spec t d) as (d1 & -> & H1 & H2 & H3 & H4 & H5).
  simpl. split_and!; [done..|].
  intros j. destruct (decide (j = Tok t)); [by right|left; by apply H5].
Qed.


Lemma add_node_new n attr g :
  node g !! n = None →
  add_node n attr g = mkDiGraph (<[n := attr]> (node g)) (edge g).
Proof. unfold add_node. by intros ->. Qed.


(** What [add_function] has done when it returns. *)
Lemma add_function_Ok function_id a d id d' :
  add_function function_id a d = (Ok id, d') →
  let inputs := default [Tok START] (fa_inputs a) in
  let outputs := default [Tok SINK] (fa_outputs a) in
  nodes d !! id = None
  ∧ (∃ fname d2, function_name function_id a = Some fname
       ∧ nodes d ⊆ nodes d2 ∧ id = get_unused_node_id (dmap d2) fname)
  ∧ (∃ index, nodes d' !! id = Some (function_attr_dict index inputs outputs a))
  ∧ (∀ u, u ∈ inputs →
       is_Some (edge (dmap d') !! (u, id)) ∧ is_data_node d' u)
  ∧ (∀ u, u ∈ outputs →
       is_Some (edge (dmap d') !! (id, u)) ∧ is_data_node d' u).
Proof.
  rewrite add_function_unfold.
  destruct (token_state_spec (fa_inputs a) START d) as (Hs1 & He1 & _).
  set (d1 := token_state (fa_inputs a) START d) in *.
  destruct (token_state_spec (fa_outputs a) SINK d1) as (Hs2 & He2 & _).
  set (d2 := token_state (fa_outputs a) SINK d1) in *.
  assert (nodes d ⊆ nodes d2) as Hs by (by etrans).
  destruct (function_name function_id a) as [fname|]; simpl; [|done].
  pose proof (get_unused_node_id_unused (dmap d2) fname) as Hfresh.
  set (fun_id := get_unused_node_id (dmap d2) fname) in *.
  rewrite (add_node_new _ _ _ Hfresh).
  destruct (add_func_edges fun_id _ _ true [] _) as [[n_data|e] d4] eqn:Hrun;
    [|done].
  destruct (add_func_edges_Ok _ _ _ _ _ _ _ _ Hrun) as (H1 & _ & H2 & H3).
  { unfold nodes. simpl. by rewrite lookup_insert_eq. }
  destruct (add_func_edges fun_id _ _ false n_data d4) as [[?|e] d5] eqn:Hrun';
    [|done].
  intros [= <- <-].
  destruct (add_func_edges_Ok _ _ _ _ _ _ _ _ Hrun') as (H1' & _ & H2' & H3').
  { eapply lookup_weaken_is_Some; [|exact H1]. unfold nodes. simpl.
    by rewrite lookup_insert_eq. }
  split_and!.
  - by eapply lookup_weaken_None.
  - by exists fname, d2.
  - eexists. eapply lookup_weaken; [|exact H1'].
    eapply lookup_weaken; [|exact H1]. unfold nodes. simpl.
    apply lookup_insert_eq.
  - intros u Hu. destruct (H3 u Hu) as [Hedge Hdata]. split.
    + by apply H2'.
    + by eapply is_data_node_weaken.
  - intros u Hu. by apply H3'.
Qed.








(** C8, as the code has it.  When [add_function] returns, the node it
    added has for input list the list that was passed and [[START]] when
    the argument was omitted, and likewise for the output list and
    [[SINK]] (unless a keyword named [inputs] or [outputs] overrides the
    attribute); every id of the two lists is then a data node of the
    dispatcher, joined to the function node by an edge.  So a function node
    added with both arguments omitted has the input [START] and the output
    [SINK]; a list passed empty is kept empty. *)
Theorem add_function_inputs_outputs function_id a d id d' :
  add_function function_id a d = (Ok id, d') →
  let inputs := default [Tok START] (fa_inputs a) in
  let outputs := default [Tok SINK] (fa_outputs a) in
  (∃ attr, nodes d' !! id = Some attr
     ∧ (fa_kwargs a !! "inputs" = None → attr !! "inputs" = Some (VIds inputs))
     ∧ (fa_kwargs a !! "outputs" = None →
        attr !! "outputs" = Some (VIds outputs)))
  ∧ (∀ u, u ∈ inputs →
       is_Some (edge (dmap d') !! (u, id)) ∧ is_data_node d' u)
  ∧ (∀ u, u ∈ outputs →
       is_Some (edge (dmap d') !! (id, u)) ∧ is_data_node d' u).
Proof.
  intros Hrun.
  destruct (add_function_Ok _ _ _ _ _ Hrun) as (_ & _ & [index Hid] & Hin & Hout).
  simpl. split_and!; [|done..].
  eexists. split; [exact Hid|]. unfold function_attr_dict. split; intros Hk.
  - rewrite lookup_union_r by done.
    rewrite lookup_set_opt_ne, lookup_set_if_ne, lookup_set_opt_ne,
      lookup_set_if_ne by done.
    rewrite lookup_insert_ne by done. by rewrite lookup_insert_eq.
  - rewrite lookup_union_r by done.
    rewrite lookup_set_opt_ne, lookup_set_if_ne, lookup_set_opt_ne,
      lookup_set_if_ne by done.
    do 2 rewrite lookup_insert_ne by done. by rewrite lookup_insert_eq.
Qed.

Definition only_function (f : value) (inputs outputs : option (list node_id))
  : function_args :=
  mkFunctionArgs f inputs outputs VNone None None None None VNone ∅.

Lemma add_function_inputs_outputs_witness :
  let r := add_function (Some (Str "h"))
             (only_function (VObj (Some "h") 9) None None) example_dsp in
  r.1 = Ok (Str "h")
  ∧ is_data_node r.2 (Tok START) ∧ is_data_node r.2 (Tok SINK)
  ∧ is_Some (edge (dmap r.2) !! (Tok START, Str "h"))
  ∧ is_Some (edge (dmap r.2) !! (Str "h", Tok SINK)).
Proof.
  intros r.
  assert (r.1 = Ok (Str "h")) as Hr by (vm_compute; reflexivity).
  assert (r = (Ok (Str "h"), r.2)) as Hrun.
  { rewrite (surjective_pairing r) at 1. by rewrite Hr. }
  destruct (add_function_inputs_outputs (Some (Str "h"))
              (only_function (VObj (Some "h") 9) None None) example_dsp
              (Str "h") r.2 Hrun) as (_ & Hin & Hout).
  destruct (Hin (Tok START)) as [Hi1 Hi2]; [left|].
  destruct (Hout (Tok SINK)) as [Ho1 Ho2]; [left|].
  split_and!; [exact Hr|exact Hi2|exact Ho2|exact Hi1|exact Ho1].
Defined.

(** C8 as stated fails: called with empty lists, [add_function] adds a
    function node without any input, output or edge. *)
Lemma add_function_empty_lists_counterexample :
  let r := add_function (Some (Str "g"))
             (only_function (VObj (Some "g") 9) (Some []) (Some []))
             example_dsp in
  r.1 = Ok (Str "g")
  ∧ nodes r.2 !! Str "g" ≫= (.!! "type") = Some (VStr "function")
  ∧ nodes r.2 !! Str "g" ≫= (.!! "inputs") = Some (VIds [])
  ∧ nodes r.2 !! Str "g" ≫= (.!! "outputs") = Some (VIds [])
  ∧ in_degree (dmap r.2) (Str "g") = 0
  ∧ out_degree (dmap r.2) (Str "g") = 0.
Proof. split_and!; vm_compute; reflexivity. Qed.




(** ** Node kinds *)










(** ** Sub-dispatchers *)

(** The graph without the nodes that fail [P], and without their edges. *)
Definition restrict (P : node_id → Prop) `{∀ u, Decision (P u)} (g : DiGraph)
  : DiGraph :=
  mkDiGraph (filter (λ kv, P kv.1) (node g))
            (filter (λ kv, P kv.1.1 ∧ P kv.1.2) (edge g)).

(** "The subgraph induced by N with the edges in E removed". *)
Definition induced_without (N : list node_id) (E : list (node_id * node_id))
    (g : DiGraph) : DiGraph :=
  mkDiGraph (filter (λ kv, kv.1 ∈ N) (node g))
            (filter (λ kv, kv.1.1 ∈ N ∧ kv.1.2 ∈ N ∧ kv.1 ∉ E) (edge g)).

(** A node "that lacks some input in N". *)
Definition lacks_input (N : list node_id) (g : DiGraph) (u : node_id) : Prop :=
  match node g !! u ≫= (.!! "inputs") with
  | Some n =>
      match inputs_set n with
      | Ok l => ¬ l ⊆ N
      | Raise _ => False
      end
  | None => False
  end.

#[global] Instance lacks_input_dec N g u : Decision (lacks_input N g u).
Proof.
  unfold lacks_input. destruct (_ ≫= _) as [n|]; [|apply _].
  destruct (inputs_set n); apply _.
Defined.

Definition is_function_node (g : DiGraph) (u : node_id) : Prop :=
  node g !! u ≫= (.!! "type") = Some (VStr "function").

#[global] Instance is_function_node_dec g u : Decision (is_function_node g u).
Proof. unfold is_function_node. apply _. Defined.

(** A function node that "lacks some input in N or retains no outgoing
    edge" in the graph [gi]. *)
Definition dropped_function (N : list node_id) (g gi : DiGraph) (u : node_id)
  : Prop :=
  lacks_input N g u ∨ (is_function_node g u ∧ out_degree gi u = 0).

#[global] Instance dropped_function_dec N g gi u :
  Decision (dropped_function N g gi u).
Proof. unfold dropped_function. apply _. Defined.

Definition isolated (g : DiGraph) (u : node_id) : Prop :=
  out_degree g u + in_degree g u = 0.

#[global] Instance isolated_dec g u : Decision (isolated g u).
Proof. unfold isolated. apply _. Defined.

(** The graph of the sub-dispatcher, in the words of the claim. *)
Definition sub_dsp_graph (N : list node_id) (E : list (node_id * node_id))
    (g : DiGraph) : DiGraph :=
  let gi := induced_without N E g in
  let gf := restrict (λ u, ¬ dropped_function N g gi u) gi in
  restrict (λ u, ¬ isolated gf u) gf.

(** The dispatchers [get_sub_dsp] is made for: every node has a type, an
    [inputs] attribute is a list of ids or an I/O map, and an edge that
    leaves a node of type function arrives at a data node, which has no
    [inputs] attribute. *)
Definition inputs_ok (a : attrs) : Prop :=
  match a !! "inputs" with
  | Some n => n = VNone ∨ ∃ l, inputs_set n = Ok l
  | None => True
  end.

Definition plain_data (g : DiGraph) (v : node_id) : Prop :=
  match node g !! v with
  | Some a => a !! "type" = Some (VStr "data") ∧ a !! "inputs" = None
  | None => False
  end.

Definition sub_dsp_wf (g : DiGraph) : Prop :=
  map_Forall (λ _ a, is_Some (a !! "type") ∧ inputs_ok a) (node g)
  ∧ map_Forall (λ e _, is_function_node g e.1 → plain_data g e.2) (edge g).

#[global] Instance inputs_ok_dec a : Decision (inputs_ok a).
Proof.
  unfold inputs_ok. destruct (a !! "inputs") as [n|]; [|apply _].
  destruct (inputs_set n) as [l|e] eqn:Hn.
  - left. right. by exists l.
  - destruct (decide (n = VNone)); [by left; left|].
    right. intros [?|[l ?]]; done.
Defined.

#[global] Instance plain_data_dec g v : Decision (plain_data g v).
Proof. unfold plain_data. destruct (node g !! v); apply _. Defined.

#[global] Instance sub_dsp_wf_dec g : Decision (sub_dsp_wf g).
Proof. unfold sub_dsp_wf. apply _. Defined.

Lemma DiGraph_eq g1 g2 :
  (∀ u, node g1 !! u = node g2 !! u) →
  (∀ e, edge g1 !! e = edge g2 !! e) → g1 = g2.
Proof.
  destruct g1, g2. simpl. intros Hn He. f_equal; by apply map_eq.
Qed.

Lemma restrict_node P `{∀ u, Decision (P u)} g u :
  node (restrict P g) !! u = if decide (P u) then node g !! u else None.
Proof.
  unfold restrict. simpl. rewrite map_lookup_filter.
  destruct (node g !! u) as [a|]; simpl; [|by case_decide].
  destruct (decide (P u));
    [by rewrite option_guard_True|by rewrite option_guard_False].
Qed.

Lemma restrict_edge P `{∀ u, Decision (P u)} g e :
  edge (restrict P g) !! e
  = if decide (P e.1 ∧ P e.2) then edge g !! e else None.
Proof.
  unfold restrict. simpl. rewrite map_lookup_filter.
  destruct (edge g !! e) as [a|]; simpl; [|by case_decide].
  destruct (decide (P e.1 ∧ P e.2));
    [by rewrite option_guard_True|by rewrite option_guard_False].
Qed.

Lemma remove_nodes_from_restrict l g :
  remove_nodes_from l g = restrict (λ u, u ∉ l) g.
Proof.
  apply DiGraph_eq.
  - intros u. rewrite remove_nodes_from_node, restrict_node.
    repeat case_decide; done.
  - intros [u v]. rewrite remove_nodes_from_edge, restrict_edge. simpl.
    repeat case_decide; try done; tauto.
Qed.

Lemma drop_node_remove_nodes_from n g : drop_node n g = remove_nodes_from [n] g.
Proof. done. Qed.

Lemma out_degree_0 g u : out_degree g u = 0 ↔ ∀ v, edge g !! (u, v) = None.
Proof.
  unfold out_degree. rewrite map_size_empty_iff, map_empty. split.
  - intros Hf v. specialize (Hf (u, v)).
    apply map_lookup_filter_None in Hf as [Hf|Hf]; [done|].
    destruct (edge g !! (u, v)) as [a|] eqn:He; [|done].
    by destruct (Hf a eq_refl).
  - intros Hz [x y]. apply map_lookup_filter_None.
    destruct (decide (x = u)) as [->|Hne]; [left; apply Hz|].
    right. intros a _. done.
Qed.

Lemma in_degree_0 g u : in_degree g u = 0 ↔ ∀ v, edge g !! (v, u) = None.
Proof.
  unfold in_degree. rewrite map_size_empty_iff, map_empty. split.
  - intros Hf v. specialize (Hf (v, u)).
    apply map_lookup_filter_None in Hf as [Hf|Hf]; [done|].
    destruct (edge g !! (v, u)) as [a|] eqn:He; [|done].
    by destruct (Hf a eq_refl).
  - intros Hz [x y]. apply map_lookup_filter_None.
    destruct (decide (y = u)) as [->|Hne]; [left; apply Hz|].
    right. intros a _. done.
Qed.

Lemma isolated_iff g u :
  isolated g u ↔ ∀ v, edge g !! (u, v) = None ∧ edge g !! (v, u) = None.
Proof.
  unfold isolated.
  assert (out_degree g u + in_degree g u = 0
          ↔ out_degree g u = 0 ∧ in_degree g u = 0) as -> by lia.
  rewrite out_degree_0, in_degree_0. naive_solver.
Qed.

Lemma real_paths_Ok d N :
  (∀ u, u ∈ N → is_Some (nodes d !! u)) → real_paths d N = Ok N.
Proof.
  induction N as [|u N IH]; intros HN; simpl; [done|].
  unfold get_node, has_node.
  rewrite bool_decide_eq_true_2 by (apply HN; left).
  rewrite IH; [done|]. intros v Hv. apply HN. by right.
Qed.

Lemma subgraph_restrict N g : subgraph N g = restrict (λ u, u ∈ N) g.
Proof. done. Qed.

Lemma dmap_or_new_subgraph N g :
  (∀ u, u ∈ N → is_Some (node g !! u)) →
  dmap_or_new (Some (subgraph N g)) = subgraph N g.
Proof.
  intros HN. unfold dmap_or_new. case_decide as Hempty; [|done].
  assert (N = []) as ->.
  { destruct N as [|u N]; [done|]. exfalso.
    destruct (HN u) as [a Ha]; [left|].
    assert (node (subgraph (u :: N) g) !! u = Some a) as Hu.
    { rewrite subgraph_restrict, restrict_node.
      rewrite decide_True by left. done. }
    rewrite Hempty in Hu. done. }
  apply DiGraph_eq; intros x.
  - by rewrite Hempty.
  - rewrite subgraph_restrict, restrict_edge.
    rewrite decide_False; [done|]. by intros [?%not_elem_of_nil _].
Qed.

Lemma induced_without_node N E g u :
  node (induced_without N E g) !! u
  = if decide (u ∈ N) then node g !! u else None.
Proof.
  unfold induced_without. simpl. rewrite map_lookup_filter.
  destruct (node g !! u) as [a|]; simpl; [|by case_decide].
  destruct (decide (u ∈ N));
    [by rewrite option_guard_True|by rewrite option_guard_False].
Qed.

Lemma induced_without_edge N E g e :
  edge (induced_without N E g) !! e
  = if decide (e.1 ∈ N ∧ e.2 ∈ N ∧ e ∉ E) then edge g !! e else None.
Proof.
  unfold induced_without. simpl. rewrite map_lookup_filter.
  destruct (edge g !! e) as [a|]; simpl; [|by case_decide].
  destruct (decide (e.1 ∈ N ∧ e.2 ∈ N ∧ e ∉ E));
    [by rewrite option_guard_True|by rewrite option_guard_False].
Qed.

Lemma remove_no_inputs_spec NB g0 :
  ∀ todo g,
    NoDup todo →
    (∀ v, v ∈ todo →
       node g !! v = node g0 !! v
       ∧ ∃ a, node g0 !! v = Some a ∧ inputs_ok a) →
    remove_no_inputs todo NB g
    = Ok (remove_nodes_from (filter (lacks_input NB g0) todo) g).
Proof.
  induction todo as [|u t IH]; intros g Hnd Hall; [done|].
  apply NoDup_cons in Hnd as [Hu Hnd].
  destruct (Hall u) as (Hgu & a & Ha & Hok); [left|].
  assert (∀ v, v ∈ t →
            node g !! v = node g0 !! v
            ∧ ∃ a, node g0 !! v = Some a ∧ inputs_ok a) as Hall'.
  { intros v Hv. apply Hall. by right. }
  assert (∀ v, v ∈ t →
            node (drop_node u g) !! v = node g0 !! v
            ∧ ∃ a, node g0 !! v = Some a ∧ inputs_ok a) as Hdrop.
  { intros v Hv. destruct (Hall' v Hv) as [Hv1 Hv2]. split; [|done].
    simpl. rewrite lookup_delete_ne; [done|]. intros ->. done. }
  simpl. rewrite Hgu, Ha.
  unfold inputs_ok in Hok.
  assert (lacks_input NB g0 u
          ↔ ∃ n l, a !! "inputs" = Some n ∧ inputs_set n = Ok l ∧ ¬ l ⊆ NB)
    as Hlacks.
  { unfold lacks_input. rewrite Ha. simpl.
    destruct (a !! "inputs") as [n|].
    2: { split; [done|]. by intros (? & ? & ? & _). }
    destruct (inputs_set n) as [l|] eqn:Hl.
    - split; [intros H; by exists n, l|].
      intros (n0 & l0 & [= <-] & Hl0 & H). rewrite Hl in Hl0.
      by injection Hl0 as <-.
    - split; [done|]. intros (n0 & l0 & [= <-] & Hl0 & _).
      by rewrite Hl in Hl0. }
  destruct (a !! "inputs") as [n|] eqn:Hn.
  2: { rewrite filter_cons_False by (rewrite Hlacks; naive_solver).
       by apply IH. }
  destruct Hok as [->|[l Hl]].
  { rewrite filter_cons_False by (rewrite Hlacks; naive_solver).
    by apply IH. }
  assert (n ≠ VNone) as Hnn by (by intros ->).
  assert (match n with
          | VNone => remove_no_inputs t NB g
          | _ => match inputs_set n with
                 | Ok l =>
                     if decide (l ⊆ NB) then remove_no_inputs t NB g
                     else match remove_node u g with
                          | Ok g' => remove_no_inputs t NB g'
                          | Raise e => Raise e
                          end
                 | Raise e => Raise e
                 end
          end
          = Ok (remove_nodes_from (filter (lacks_input NB g0) (u :: t)) g));
    [|by destruct n].
  destruct n; try done; rewrite Hl.
  all: case_decide as Hsub;
    [rewrite filter_cons_False by (rewrite Hlacks; naive_solver); by apply IH|].
  all: rewrite filter_cons_True by (rewrite Hlacks; naive_solver).
  all: unfold remove_node, has_node;
    rewrite bool_decide_eq_true_2 by (rewrite Hgu, Ha; done).
  all: by apply IH.
Qed.

Lemma remove_edges_spec :
  ∀ E g,
    NoDup E → (∀ e, e ∈ E → is_Some (edge g !! e)) →
    ∃ g', remove_edges E g = Ok g' ∧ node g' = node g
      ∧ ∀ e, edge g' !! e = if decide (e ∈ E) then None else edge g !! e.
Proof.
  induction E as [|[u v] es IH]; intros g Hnd Hall.
  { exists g. split_and!; [done..|]. intros e. by rewrite decide_False by apply not_elem_of_nil. }
  apply NoDup_cons in Hnd as [Hu Hnd].
  simpl. unfold remove_edge.
  destruct (Hall (u, v)) as [a ->]; [left|].
  destruct (IH (mkDiGraph (node g) (delete (u, v) (edge g))) Hnd)
    as (g' & -> & Hn & He).
  { intros e He. simpl. rewrite lookup_delete_ne by (by intros <-).
    apply Hall. by right. }
  exists g'. split_and!; [done..|]. intros e. rewrite He. simpl.
  destruct (decide (e = (u, v))) as [->|Hne].
  - rewrite decide_False by done. rewrite lookup_delete_eq.
    by rewrite decide_True by left.
  - rewrite lookup_delete_ne by done.
    destruct (decide (e ∈ es)).
    + by rewrite decide_True by (by right).
    + rewrite decide_False; [done|]. by intros [?|?]%elem_of_cons.
Qed.

Lemma function_ids_spec l :
  (∀ kv, kv ∈ l → is_Some (kv.2 !! "type")) →
  function_ids l
  = Ok (filter (λ kv, kv.2 !! "type" = Some (VStr "function")) l).*1.
Proof.
  induction l as [|[u n] l IH]; intros Hall; simpl; [done|].
  destruct (Hall (u, n)) as [t Ht]; [left|]. simpl in Ht. rewrite Ht.
  rewrite IH by (intros kv Hkv; apply Hall; by right).
  case_decide as Hf.
  - rewrite filter_cons_True by (simpl; congruence). done.
  - rewrite filter_cons_False by (simpl; congruence). done.
Qed.

Lemma function_ids_nodes g :
  map_Forall (λ _ a, is_Some (a !! "type")) (node g) →
  ∃ fs, function_ids (map_to_list (node g)) = Ok fs ∧ NoDup fs
    ∧ ∀ u, u ∈ fs ↔ is_function_node g u.
Proof.
  intros Hty. eexists. split_and!.
  - apply function_ids_spec. intros [u a] Hkv%elem_of_map_to_list.
    by apply (Hty u a).
  - eapply sublist_NoDup; [apply (NoDup_fst_map_to_list (node g))|].
    apply fmap_sublist, sublist_filter.
  - intros u. unfold is_function_node.
    rewrite list_elem_of_fmap. split.
    + intros ([u' a] & -> & [Hf Hin%elem_of_map_to_list]%list_elem_of_filter).
      simpl in *. by rewrite Hin.
    + destruct (node g !! u) as [a|] eqn:Hu; [|done]. simpl. intros Hf.
      exists (u, a). split; [done|]. apply list_elem_of_filter.
      split; [done|]. by apply elem_of_map_to_list.
Qed.

Lemma remove_no_outputs_spec g2 :
  ∀ fs g,
    NoDup fs →
    (∀ u, u ∈ fs →
       is_Some (node g !! u) ∧ ∀ v, edge g !! (u, v) = edge g2 !! (u, v)) →
    (∀ u w, u ∈ fs → w ∈ fs → edge g2 !! (u, w) = None) →
    remove_no_outputs fs g
    = Ok (remove_nodes_from (filter (λ u, out_degree g2 u = 0) fs) g).
Proof.
  induction fs as [|u t IH]; intros g Hnd Hall Hno; [done|].
  apply NoDup_cons in Hnd as [Hu Hnd].
  destruct (Hall u) as [Hgu Hedges]; [left|].
  assert (out_degree g u = 0 ↔ out_degree g2 u = 0) as Hdeg.
  { rewrite !out_degree_0. by setoid_rewrite Hedges. }
  assert (∀ u w, u ∈ t → w ∈ t → edge g2 !! (u, w) = None) as Hno'.
  { intros x y Hx Hy. apply Hno; by right. }
  simpl. case_decide as Hz.
  - rewrite filter_cons_True by (by apply Hdeg).
    unfold remove_node, has_node. rewrite bool_decide_eq_true_2 by done.
    apply IH; [done| |done].
    intros w Hw. destruct (Hall w) as [Hgw Hew]; [by right|].
    assert (w ≠ u) as Hne by (by intros ->). split.
    + simpl. by rewrite lookup_delete_ne.
    + intros v. rewrite drop_node_remove_nodes_from, remove_nodes_from_edge.
      case_decide as Hin; [|apply Hew].
      destruct Hin as [->%list_elem_of_singleton| ->%list_elem_of_singleton];
        [done|].
      symmetry. apply Hno; [by right|by left].
  - rewrite filter_cons_False by (by rewrite <-Hdeg).
    apply IH; [done| |done]. intros w Hw. apply Hall. by right.
Qed.

Lemma remove_isolates g :
  remove_nodes_from (isolates g) g = restrict (λ u, ¬ isolated g u) g.
Proof.
  rewrite remove_nodes_from_restrict.
  assert (∀ u, u ∈ isolates g ↔ is_Some (node g !! u) ∧ isolated g u) as Hiso.
  { intros u. unfold isolates. rewrite list_elem_of_filter, elem_of_elements,
      elem_of_dom. unfold isolated. tauto. }
  apply DiGraph_eq.
  - intros u. rewrite !restrict_node.
    destruct (node g !! u) as [a|] eqn:Hu; [|by repeat case_decide].
    repeat case_decide; try done.
    + exfalso. rewrite Hiso in *. rewrite Hu in *. naive_solver.
    + exfalso. rewrite Hiso in *. naive_solver.
  - intros [u v]. rewrite !restrict_edge. simpl.
    destruct (edge g !! (u, v)) as [a|] eqn:He; [|by repeat case_decide].
    assert (¬ isolated g u) as Hu.
    { rewrite isolated_iff. intros Hi. destruct (Hi v). congruence. }
    assert (¬ isolated g v) as Hv.
    { rewrite isolated_iff. intros Hi. destruct (Hi u). congruence. }
    rewrite (decide_True (P:=¬ isolated g u ∧ ¬ isolated g v)) by done.
    rewrite decide_True; [done|]. rewrite !Hiso. tauto.
Qed.

Lemma lacks_input_subgraph N g u :
  u ∈ N → lacks_input N (subgraph N g) u ↔ lacks_input N g u.
Proof.
  intros Hu. unfold lacks_input.
  rewrite subgraph_restrict, restrict_node. by rewrite decide_True.
Qed.

(** The graph after the first two loops of [get_sub_dsp]. *)
Lemma get_sub_dsp_inputs_edges N E g :
  NoDup N → (∀ u, u ∈ N → is_Some (node g !! u)) →
  map_Forall (λ _ a, is_Some (a !! "type") ∧ inputs_ok a) (node g) →
  NoDup E →
  (∀ e, e ∈ E →
     is_Some (edge g !! e) ∧ e.1 ∈ N ∧ e.2 ∈ N
     ∧ ¬ lacks_input N g e.1 ∧ ¬ lacks_input N g e.2) →
  ∃ g1, remove_no_inputs N N (subgraph N g) = Ok g1
    ∧ remove_edges E g1
      = Ok (restrict (λ u, ¬ lacks_input N g u) (induced_without N E g)).
Proof.
  intros HndN HN Hwf HndE HE.
  set (sg := subgraph N g).
  assert (∀ u, u ∈ N → node sg !! u = node g !! u) as Hsg.
  { intros u Hu. unfold sg. rewrite subgraph_restrict, restrict_node.
    by rewrite decide_True. }
  rewrite (remove_no_inputs_spec N sg N sg HndN).
  2: { intros v Hv. split; [done|]. rewrite (Hsg v Hv).
       destruct (HN v Hv) as [a Ha]. exists a. split; [done|].
       by apply (Hwf v a Ha). }
  eexists. split; [reflexivity|].
  set (L := filter (lacks_input N sg) N).
  assert (∀ u, u ∈ L ↔ u ∈ N ∧ lacks_input N g u) as HL.
  { intros u. unfold L. rewrite list_elem_of_filter. split.
    - intros [H1 H2]. split; [done|].
      by apply (lacks_input_subgraph N g u H2) in H1.
    - intros [H1 H2]. split; [|done].
      by apply (lacks_input_subgraph N g u H1). }
  destruct (remove_edges_spec E (remove_nodes_from L sg) HndE)
    as (g2 & -> & Hn2 & He2).
  { intros [u v] He. destruct (HE _ He) as (Hedge & Hu & Hv & Hlu & Hlv).
    simpl in *. rewrite remove_nodes_from_edge.
    rewrite decide_False by (rewrite !HL; tauto).
    unfold sg. rewrite subgraph_restrict, restrict_edge. simpl.
    by rewrite decide_True. }
  f_equal. apply DiGraph_eq.
  - intros u. rewrite Hn2, remove_nodes_from_node, restrict_node,
      induced_without_node.
    unfold sg. rewrite subgraph_restrict, restrict_node.
    repeat case_decide; try done; exfalso; rewrite HL in *; tauto.
  - intros [u v]. rewrite He2, remove_nodes_from_edge, restrict_edge,
      induced_without_edge.
    unfold sg. rewrite subgraph_restrict, restrict_edge. simpl.
    repeat case_decide; try done; exfalso; rewrite ?HL in *; tauto.
Qed.

(** The function nodes the third loop removes are the ones without an
    outgoing edge in the induced graph. *)
Lemma function_out_degree N E g u :
  map_Forall (λ e _, is_function_node g e.1 → plain_data g e.2) (edge g) →
  is_function_node g u → ¬ lacks_input N g u →
  out_degree (restrict (λ u, ¬ lacks_input N g u) (induced_without N E g)) u = 0
  ↔ out_degree (induced_without N E g) u = 0.
Proof.
  intros Hbip Hf Hl. rewrite !out_degree_0.
  assert (∀ v, edge (restrict (λ u, ¬ lacks_input N g u)
                       (induced_without N E g)) !! (u, v)
               = edge (induced_without N E g) !! (u, v)) as Heq.
  { intros v. rewrite restrict_edge. cbn [fst snd].
    case_decide as Hd; [done|].
    rewrite induced_without_edge. case_decide; [|done].
    destruct (edge g !! (u, v)) as [a|] eqn:He; [|done]. exfalso.
    pose proof (Hbip (u, v) a He Hf) as Hp. simpl in Hp.
    apply Hd. split; [done|].
    unfold lacks_input. unfold plain_data in Hp.
    destruct (node g !! v) as [b|]; [|done]. simpl.
    destruct Hp as [_ ->]. by intros []. }
  by setoid_rewrite Heq.
Qed.

(** C6, as the code has it.  The dispatcher is as the building methods
    leave it: every node has a type, an [inputs] attribute is a list of
    ids or an I/O map, and the edges that leave a node of type function
    arrive at data nodes without [inputs].  [N] lists nodes of it without
    repetition, [E] (when given) lists without repetition edges of it
    between nodes of [N] that have all their inputs in [N].  Then
    [get_sub_dsp] returns a dispatcher whose graph is the subgraph induced
    by [N] with the edges of [E] removed, from which the nodes that lack
    some input in [N] and the nodes of type function without outgoing edge
    are dropped, and then the isolated nodes; its defaults are the
    defaults of the dispatcher for the retained nodes, its name,
    description, weight, raises flag and stopper those of the
    dispatcher. *)
Theorem get_sub_dsp_spec (N : list node_id)
    (E : option (list (node_id * node_id))) (d : Dispatcher) :
  NoDup N → (∀ u, u ∈ N → is_Some (nodes d !! u)) →
  sub_dsp_wf (dmap d) →
  NoDup (default [] E) →
  (∀ e, e ∈ default [] E →
     is_Some (edge (dmap d) !! e) ∧ e.1 ∈ N ∧ e.2 ∈ N
     ∧ ¬ lacks_input N (dmap d) e.1 ∧ ¬ lacks_input N (dmap d) e.2) →
  ∃ d', get_sub_dsp N E d = Ok d'
    ∧ dmap d' = sub_dsp_graph N (default [] E) (dmap d)
    ∧ (∀ k x, default_values d' !! k = Some x
              ↔ default_values d !! k = Some x ∧ is_Some (nodes d' !! k))
    ∧ name d' = name d ∧ doc d' = doc d ∧ weight d' = weight d
    ∧ raises_ d' = raises_ d ∧ stopper d' = stopper d.
Proof.
  intros HndN HN [Hwf Hbip] HndE HE.
  set (g := dmap d) in *. set (Es := default [] E) in *.
  unfold get_sub_dsp. rewrite (real_paths_Ok d N HN).
  cbv zeta. set (sub_dsp := copy_structure _ d).
  change (dmap sub_dsp) with (dmap_or_new (Some (subgraph N g))).
  rewrite (dmap_or_new_subgraph N g HN).
  destruct (get_sub_dsp_inputs_edges N Es g HndN HN Hwf HndE HE)
    as (g1 & -> & Hg2).
  fold Es. rewrite Hg2.
  set (gi := induced_without N Es g).
  set (g2 := restrict (λ u, ¬ lacks_input N g u) gi).
  assert (∀ u, node g2 !! u
               = if decide (u ∈ N ∧ ¬ lacks_input N g u) then node g !! u
                 else None) as Hn2.
  { intros u. unfold g2, gi. rewrite restrict_node, induced_without_node.
    repeat case_decide; try done; tauto. }
  destruct (function_ids_nodes g2) as (fs & -> & Hndfs & Hfs).
  { intros u a Hu. rewrite Hn2 in Hu. case_decide; [|done].
    by apply (Hwf u a Hu). }
  assert (∀ u, u ∈ fs → u ∈ N ∧ ¬ lacks_input N g u ∧ is_function_node g u)
    as Hfs'.
  { intros u Hu%Hfs. unfold is_function_node in *. rewrite Hn2 in Hu.
    case_decide; [|done]. tauto. }
  rewrite (remove_no_outputs_spec g2 fs g2 Hndfs).
  2: { intros u Hu. split; [|done]. apply Hfs in Hu.
       unfold is_function_node in Hu. by destruct (node g2 !! u). }
  2: { intros u w Hu Hw.
       destruct (Hfs' u Hu) as (_ & _ & Hfu).
       destruct (Hfs' w Hw) as (_ & _ & Hfw).
       unfold g2, gi. rewrite restrict_edge, induced_without_edge. simpl.
       repeat case_decide; try done.
       destruct (edge g !! (u, w)) as [a|] eqn:He; [|done]. exfalso.
       pose proof (Hbip (u, w) a He Hfu) as Hp. simpl in Hp.
       unfold plain_data in Hp. unfold is_function_node in Hfw.
       destruct (node g !! w) as [b|]; [|done]. simpl in Hfw.
       destruct Hp as [Hp _]. congruence. }
  set (L := filter (λ u, out_degree g2 u = 0) fs).
  rewrite remove_isolates.
  assert (remove_nodes_from L g2
          = restrict (λ u, ¬ dropped_function N g gi u) gi) as Hg3.
  { rewrite remove_nodes_from_restrict.
    assert (∀ u, u ∈ N →
              (u ∉ L ∧ ¬ lacks_input N g u) ↔ ¬ dropped_function N g gi u)
      as Hdrop.
    { intros u Hu. unfold dropped_function, L.
      rewrite list_elem_of_filter.
      destruct (decide (lacks_input N g u)) as [Hl|Hl]; [tauto|].
      assert (u ∈ fs ↔ is_function_node g u) as ->.
      { rewrite Hfs. unfold is_function_node. rewrite Hn2.
        by rewrite decide_True. }
      destruct (decide (is_function_node g u)) as [Hf|Hf]; [|tauto].
      pose proof (function_out_degree N Es g u Hbip Hf Hl) as Hdeg.
      fold gi in Hdeg. fold g2 in Hdeg. tauto. }
    apply DiGraph_eq.
    - intros u. unfold g2. rewrite !restrict_node.
      destruct (node gi !! u) as [a|] eqn:Hu; [|by repeat case_decide].
      assert (u ∈ N) as HuN.
      { unfold gi in Hu. rewrite induced_without_node in Hu.
        by case_decide. }
      specialize (Hdrop u HuN).
      repeat case_decide; try done; tauto.
    - intros [u v]. unfold g2. rewrite !restrict_edge. simpl.
      destruct (edge gi !! (u, v)) as [a|] eqn:He; [|by repeat case_decide].
      assert (u ∈ N ∧ v ∈ N) as [HuN HvN].
      { unfold gi in He. rewrite induced_without_edge in He.
        case_decide; [tauto|done]. }
      pose proof (Hdrop u HuN). pose proof (Hdrop v HvN).
      repeat case_decide; try done; tauto. }
  rewrite Hg3.
  eexists. split; [reflexivity|]. simpl. split_and!; try done.
  intros k x. rewrite map_lookup_filter_Some. simpl. done.
Qed.

(** The dispatcher of the docstring of [get_sub_dsp]: [fun1] from [a], [b]
    to [c], [d] and [fun2] from [a], [d] to [c], [e]. *)
Definition two_functions_dsp : Dispatcher :=
  let d := Dispatcher_init None "Dispatcher" None false "" None in
  let d := (add_function (Some (Str "fun1"))
              (only_function VNone (Some [Str "a"; Str "b"])
                 (Some [Str "c"; Str "d"])) d).2 in
  (add_function (Some (Str "fun2"))
     (only_function VNone (Some [Str "a"; Str "d"])
        (Some [Str "c"; Str "e"])) d).2.

(** A parent with the sub-dispatcher node [sub], from [A] to [C]. *)
Definition parent_dsp : Dispatcher :=
  (add_dispatcher 2 3 [(Str "A", One (Str "a"))] [(Str "c", One (Str "C"))]
     (mkDispatcherArgs (Some (Str "sub")) VNone None None None false None
        VNone ∅)
     example_dsp
     (Dispatcher_init None "Parent" None false "" None)).1.2.

Lemma get_sub_dsp_spec_witness :
  let N := [Str "a"; Str "c"; Str "d"; Str "e"; Str "fun2"] in
  let E := Some [(Str "fun2", Str "e")] in
  ∃ d', get_sub_dsp N E two_functions_dsp = Ok d'
    ∧ dmap d' = sub_dsp_graph N [(Str "fun2", Str "e")] (dmap two_functions_dsp)
    ∧ stopper d' = stopper two_functions_dsp.
Proof.
  intros N E.
  destruct (get_sub_dsp_spec N E two_functions_dsp) as (d' & H1 & H2 & _ & H3).
  - apply (bool_decide_unpack _). vm_compute. exact I.
  - intros u Hu.
    repeat (apply elem_of_cons in Hu as [->|Hu];
            [apply (bool_decide_unpack _); vm_compute; exact I|]).
    exfalso. exact (not_elem_of_nil _ Hu).
  - apply (bool_decide_unpack _). vm_compute. exact I.
  - apply (bool_decide_unpack _). vm_compute. exact I.
  - intros e He. apply list_elem_of_singleton in He as ->.
    split_and!; cbn [fst snd].
    + apply (bool_decide_unpack _). vm_compute. exact I.
    + repeat first [by constructor 1|constructor 2].
    + repeat first [by constructor 1|constructor 2].
    + apply (@bool_decide_unpack _ (not_dec (lacks_input_dec _ _ _))).
      vm_compute. exact I.
    + apply (@bool_decide_unpack _ (not_dec (lacks_input_dec _ _ _))).
      vm_compute. exact I.
  - exists d'. split_and!; [exact H1|exact H2|].
    destruct H3 as (_ & _ & _ & _ & H3). exact H3.
Defined.

(** C6 as stated fails.  An edge of [E] that is no edge of the induced
    subgraph makes the call raise; so does a node listed twice in [N] when
    it lacks an input; and a sub-dispatcher node that retains no outgoing
    edge is not dropped. *)
Lemma get_sub_dsp_counterexample :
  get_sub_dsp [Str "a"; Str "c"; Str "d"; Str "e"; Str "fun2"]
    (Some [(Str "a", Str "c")]) two_functions_dsp
  = Raise (NetworkXError (Str "a") (Some (Str "c")))
  ∧ get_sub_dsp [Str "a"; Str "c"; Str "fun1"; Str "fun1"] None
      two_functions_dsp
    = Raise (KeyError_node (Str "fun1"))
  ∧ ∃ d', get_sub_dsp [Str "A"; Str "sub"] None parent_dsp = Ok d'
      ∧ nodes d' !! Str "sub" ≫= (.!! "type") = Some (VStr "dispatcher")
      ∧ out_degree (dmap d') (Str "sub") = 0.
Proof.
  split_and!; [vm_compute; reflexivity..|].
  eexists. split; [vm_compute; reflexivity|].
  split; vm_compute; reflexivity.
Qed.

(** ** The edges of the graph join nodes *)

(** A method keeps an invariant of the dispatcher, whether it returns or
    raises. *)
Definition keeps {A} (I : Dispatcher → Prop) (m : M A) : Prop :=
  ∀ d, I d → I (m d).2.

Lemma keeps_bind {A B} I (m : M A) (k : A → M B) :
  keeps I m → (∀ a, keeps I (k a)) → keeps I (bind m k).
Proof.
  intros Hm Hk d Hd. unfold bind. specialize (Hm d Hd).
  destruct (m d) as [[a|e] d']; simpl in *; [by apply Hk|done].
Qed.

Definition dispatcher_wf (d : Dispatcher) : Prop := graph_wf (dmap d).

Lemma graph_wf_nodes_grow g nd :
  graph_wf g → (∀ u, is_Some (node g !! u) → is_Some (nd !! u)) →
  graph_wf (mkDiGraph nd (edge g)).
Proof.
  intros Hwf Hgrow e a He. destruct (Hwf e a He) as [H1 H2].
  split; by apply Hgrow.
Qed.

Lemma add_node_wf n attr g : graph_wf g → graph_wf (add_node n attr g).
Proof.
  intros Hwf. unfold add_node.
  destruct (node g !! n) as [old|] eqn:Hn;
    apply (graph_wf_nodes_grow g); try done; intros u Hu.
  - destruct (decide (u = n)) as [->|]; [by rewrite lookup_insert_eq|].
    by rewrite lookup_insert_ne.
  - destruct (decide (u = n)) as [->|]; [by rewrite lookup_insert_eq|].
    by rewrite lookup_insert_ne.
Qed.

Lemma add_edge_wf u v attr g : graph_wf g → graph_wf (add_edge u v attr g).
Proof.
  intros Hwf [x y] a. unfold add_edge. simpl. intros He.
  assert (∀ z, is_Some (node g !! z) →
            is_Some (touch_node v (touch_node u (node g)) !! z)) as Hgrow.
  { intros z Hz. eapply lookup_weaken_is_Some; [|apply touch_node_subseteq].
    by eapply lookup_weaken_is_Some; [|apply touch_node_subseteq]. }
  destruct (decide ((u, v) = (x, y))) as [[= <- <-]|Hne].
  - split; [|apply touch_node_is_Some].
    eapply lookup_weaken_is_Some; [apply touch_node_is_Some|].
    apply touch_node_subseteq.
  - rewrite lookup_insert_ne in He by done.
    destruct (Hwf (x, y) a He). split; by apply Hgrow.
Qed.

Lemma remove_nodes_from_wf l g : graph_wf g → graph_wf (remove_nodes_from l g).
Proof.
  intros Hwf [x y] a He. rewrite remove_nodes_from_edge in He.
  case_decide as Hin; [done|]. destruct (Hwf (x, y) a He) as [H1 H2].
  simpl in *. rewrite !remove_nodes_from_node.
  rewrite !decide_False by tauto. done.
Qed.

Lemma set_default_value_wf data_id v dist :
  keeps dispatcher_wf (set_default_value data_id v dist).
Proof.
  intros d Hd. unfold dispatcher_wf. by rewrite set_default_value_dmap.
Qed.

Lemma add_data_wf data_id args : keeps dispatcher_wf (add_data data_id args).
Proof.
  unfold add_data.
  apply keeps_bind; [by intros d Hd|]. intros index.
  apply keeps_bind; [by intros d Hd|]. intros d0.
  apply keeps_bind.
  { destruct data_id as [i|]; [|by intros d Hd].
    destruct (has_node _ _); [|by intros d Hd].
    destruct (node_type _ _); [|by intros d Hd].
    case_decide; by intros d Hd. }
  intros i. apply keeps_bind.
  { intros d Hd. by apply add_node_wf. }
  intros _. apply keeps_bind; [apply set_default_value_wf|].
  by intros _ d Hd.
Qed.

Lemma add_func_edges_wf fun_id nodes_bunch ws input dn :
  keeps dispatcher_wf (add_func_edges fun_id nodes_bunch ws input dn).
Proof.
  revert dn. induction nodes_bunch as [|u us IH]; intros dn; simpl.
  { by intros d Hd. }
  apply keeps_bind; [by intros d Hd|]. intros d0.
  apply keeps_bind.
  - destruct (node_type _ _).
    + case_decide; [by intros d Hd|].
      apply keeps_bind; [|by intros _ d Hd].
      intros d Hd. by apply remove_nodes_from_wf.
    + apply keeps_bind; [apply add_data_wf|]. by intros v d Hd.
  - intros dn'. apply keeps_bind; [|intros _; apply IH].
    intros d Hd. unfold modify, dispatcher_wf. simpl.
    destruct input; by apply add_edge_wf.
Qed.

(** The building methods keep the edges of the graph between its nodes;
    the graph of a new dispatcher has no edge. *)
Lemma add_function_wf function_id args :
  keeps dispatcher_wf (add_function function_id args).
Proof.
  assert (∀ t, keeps dispatcher_wf (ensure_token t)) as Htok.
  { intros t. unfold ensure_token.
    apply keeps_bind; [by intros d Hd|]. intros d0.
    destruct (nodes d0 !! Tok t); [by intros d Hd|].
    apply keeps_bind; [apply add_data_wf|]. by intros _ d Hd. }
  unfold add_function.
  apply keeps_bind.
  { destruct (fa_inputs args); [by intros d Hd|].
    apply keeps_bind; [apply Htok|]. by intros _ d Hd. }
  intros inputs. apply keeps_bind.
  { destruct (fa_outputs args); [by intros d Hd|].
    apply keeps_bind; [apply Htok|]. by intros _ d Hd. }
  intros outputs. apply keeps_bind; [by intros d Hd|]. intros index.
  apply keeps_bind.
  { destruct function_id; [by intros d Hd|].
    destruct (func_name _); by intros d Hd. }
  intros fname. apply keeps_bind; [by intros d Hd|]. intros d0.
  apply keeps_bind.
  { intros d Hd. by apply add_node_wf. }
  intros _. apply keeps_bind; [apply add_func_edges_wf|]. intros n_data.
  apply keeps_bind; [apply add_func_edges_wf|]. by intros _ d Hd.
Qed.

Lemma Dispatcher_init_wf name dv raises description stopper :
  dispatcher_wf (Dispatcher_init None name dv raises description stopper).
Proof. intros e a He. done. Qed.

(** * Further properties of the building methods *)

(** The id a call of [add_data] works on. *)
Definition add_data_target (data_id : option node_id) (d : Dispatcher)
  : node_id :=
  match data_id with
  | Some i => i
  | None => get_unused_node_id (dmap d) (Str "unknown")
  end.

Lemma add_node_lookup_ne n attr g u :
  u ≠ n → node (add_node n attr g) !! u = node g !! u.
Proof.
  intros Hne. unfold add_node.
  destruct (node g !! n); simpl; by rewrite lookup_insert_ne.
Qed.

Lemma add_node_lookup n attr g :
  node (add_node n attr g) !! n = Some (attr ∪ default ∅ (node g !! n)).
Proof.
  unfold add_node. destruct (node g !! n) as [old|]; simpl;
    rewrite lookup_insert_eq; [done|].
  by rewrite (right_id_L ∅ (∪)).
Qed.

Lemma add_node_edge n attr g : edge (add_node n attr g) = edge g.
Proof. unfold add_node. by destruct (node g !! n). Qed.

(** What [add_data] does once the guard on the id is passed. *)
Lemma add_data_passed data_id args d :
  (∀ i, data_id = Some i → nodes d !! i = None ∨ is_data_node d i) →
  let i := add_data_target data_id d in
  let a := special_data data_id args in
  let d1 := with_dmap (add_node i (data_attr_dict (counter d) a) (dmap d))
              (with_counter (S (counter d)) d) in
  add_data data_id args d
  = match set_default_value i (da_default_value a) (da_initial_dist a) d1 with
    | (Ok _, d2) => (Ok i, d2)
    | (Raise e, d2) => (Raise e, d2)
    end.
Proof.
  intros Hguard. unfold add_data, bind, next_index, get, ret, modify. simpl.
  destruct data_id as [i|]; simpl.
  - unfold has_node. destruct (Hguard i eq_refl) as [Hn|Hd].
    + fold (nodes d). rewrite bool_decide_eq_false_2
        by (rewrite Hn; by intros []).
      simpl. by destruct (set_default_value _ _ _ _) as [[[]|]].
    + pose proof Hd as Hd'. apply node_type_Ok in Hd' as (x & Hx & _).
      rewrite bool_decide_eq_true_2 by (by rewrite Hx).
      unfold is_data_node in Hd. simpl in Hd. rewrite Hd.
      rewrite decide_True by done. simpl.
      by destruct (set_default_value _ _ _ _) as [[[]|]].
  - by destruct (set_default_value _ _ _ _) as [[[]|]].
Qed.

(** X1.  [add_data] works on one id: the id that is passed, or an unused
    id when none is passed.  Whether the call returns or raises, it takes
    one index from the counter, leaves every edge, every other node and
    the default of every other id as they were, and keeps the name, the
    description, the weight, the raises flag and the stopper; the id it
    returns is the id it worked on. *)
Theorem add_data_frame data_id args d :
  let r := add_data data_id args d in
  let i := add_data_target data_id d in
  (∀ j, r.1 = Ok j → j = i)
  ∧ counter r.2 = S (counter d)
  ∧ edge (dmap r.2) = edge (dmap d)
  ∧ (∀ u, u ≠ i →
       nodes r.2 !! u = nodes d !! u
       ∧ default_values r.2 !! u = default_values d !! u)
  ∧ name r.2 = name d ∧ doc r.2 = doc d ∧ weight r.2 = weight d
  ∧ raises_ r.2 = raises_ d ∧ stopper r.2 = stopper d.
Proof.
  intros r i.
  assert ((∀ j, data_id = Some j → nodes d !! j = None ∨ is_data_node d j)
          ∨ ∃ j x, data_id = Some j ∧ nodes d !! j = Some x
                   ∧ x !! "type" ≠ Some (VStr "data")) as [Hg|Hg].
  { destruct data_id as [j|]; [|left; by intros ? [=]].
    destruct (nodes d !! j) as [x|] eqn:Hx;
      [|left; intros ? [= <-]; by left].
    destruct (decide (x !! "type" = Some (VStr "data")));
      [left; intros ? [= <-]; right|right; by exists j, x].
    apply node_type_Ok. by exists x. }
  - unfold r. rewrite (add_data_passed data_id args d Hg). fold i.
    set (a := special_data data_id args).
    set (d1 := with_dmap _ _).
    assert (edge (dmap d1) = edge (dmap d)) as He by apply add_node_edge.
    assert (∀ u, u ≠ i → nodes d1 !! u = nodes d !! u) as Hn.
    { intros u Hu. unfold nodes, d1. simpl. by apply add_node_lookup_ne. }
    unfold set_default_value.
    destruct (node_type (dmap d1) i) as [t|e]; simpl.
    2: { split_and!; try done. intros u Hu. split; [by apply Hn|done]. }
    destruct (decide (t = VStr "data")); simpl.
    2: { split_and!; try done. intros u Hu. split; [by apply Hn|done]. }
    destruct (decide (da_default_value a = VTok EMPTY)); simpl.
    + split_and!; try done; [by intros j [= <-]|].
      intros u Hu. split; [by apply Hn|by rewrite lookup_delete_ne].
    + split_and!; try done; [by intros j [= <-]|].
      intros u Hu. split; [by apply Hn|by rewrite lookup_insert_ne].
  - destruct Hg as (j & x & -> & Hx & Hty).
    unfold r. destruct (x !! "type") as [t|] eqn:Ht.
    + rewrite (add_data_not_data d j args x t Hx Ht) by congruence.
      simpl. split_and!; done.
    + rewrite (add_data_untyped d j args x Hx Ht).
      simpl. split_and!; done.
Qed.

(** X2.  [add_data] without a [type] keyword, on an id that is no node
    yet or that is a data node, returns the id.  The node then has the
    attributes of this call over the attributes it had: what the call does
    not set is kept.  And the default of the id is the one of this call: a
    data node added again without a default value loses the default it
    had. *)
Theorem add_data_returns i args d :
  da_kwargs args !! "type" = None →
  nodes d !! i = None ∨ is_data_node d i →
  let a := special_data (Some i) args in
  let r := add_data (Some i) args d in
  r.1 = Ok i
  ∧ nodes r.2 !! i
    = Some (data_attr_dict (counter d) a ∪ default ∅ (nodes d !! i))
  ∧ is_data_node r.2 i
  ∧ default_values r.2 !! i
    = if decide (da_default_value a = VTok EMPTY) then None
      else Some (mkDefault (da_default_value a) (da_initial_dist a)).
Proof.
  intros Hk Hi a r. unfold r.
  rewrite (add_data_passed (Some i) args d) by (by intros ? [= <-]).
  simpl. fold a.
  set (attr := data_attr_dict (counter d) a).
  set (d1 := with_dmap _ _).
  assert (nodes d1 !! i = Some (attr ∪ default ∅ (nodes d !! i))) as Hn
    by apply add_node_lookup.
  assert (attr !! "type" = Some (VStr "data")) as Hty.
  { apply data_attr_dict_type. unfold a. by rewrite special_data_kwargs. }
  assert (node_type (dmap d1) i = Ok (VStr "data")) as Hnt.
  { apply node_type_Ok. eexists. split; [exact Hn|].
    by rewrite lookup_union_l'. }
  unfold set_default_value. rewrite Hnt. rewrite decide_True by done.
  destruct (decide (da_default_value a = VTok EMPTY)); simpl.
  - split_and!; [done|exact Hn|exact Hnt|by rewrite lookup_delete_eq].
  - split_and!; [done|exact Hn|exact Hnt|by rewrite lookup_insert_eq].
Qed.

Lemma add_data_returns_witness :
  let args := mkDataArgs (VTok EMPTY) (VNum 0) false None None None None
                None VNone ∅ in
  is_data_node example_dsp (Str "a")
  ∧ is_Some (default_values example_dsp !! Str "a")
  ∧ (add_data (Some (Str "a")) args example_dsp).1 = Ok (Str "a")
  ∧ default_values (add_data (Some (Str "a")) args example_dsp).2 !! Str "a"
    = None.
Proof.
  intros args.
  assert (is_data_node example_dsp (Str "a")) as Ha
    by (vm_compute; reflexivity).
  destruct (add_data_returns (Str "a") args example_dsp eq_refl (or_intror Ha))
    as (Hr & _ & _ & Hdv).
  split_and!; [exact Ha|by vm_compute; eexists|exact Hr|exact Hdv].
Defined.

Lemma token_state_counter o t d :
  (counter d ≤ counter (token_state o t d))%nat.
Proof.
  unfold token_state. destruct o; [done|].
  unfold ensure_token, bind, get. simpl.
  destruct (nodes d !! Tok t); [done|].
  pose proof (add_data_frame (Some (Tok t)) data_defaults d) as (_ & Hc & _).
  destruct (add_data _ _ d) as [[]]; simpl in *; lia.
Qed.

(** X3.  [add_function] without a function id, for a function that has no
    name, raises [ValueError].  The failure comes after the dummy nodes
    are set: [START] (when the inputs are omitted) and [SINK] (when the
    outputs are omitted) are nodes of the dispatcher afterwards and the
    counter has moved on; no other node, and no edge, is added or
    changed. *)
Theorem add_function_nameless a d :
  func_name (fa_function a) = None →
  let r := add_function None a d in
  r.1 = Raise ValueError_invalid_function_id
  ∧ edge (dmap r.2) = edge (dmap d)
  ∧ nodes d ⊆ nodes r.2
  ∧ (∀ j, nodes r.2 !! j = nodes d !! j
          ∨ (fa_inputs a = None ∧ j = Tok START)
          ∨ (fa_outputs a = None ∧ j = Tok SINK))
  ∧ (fa_inputs a = None → is_Some (nodes r.2 !! Tok START))
  ∧ (fa_outputs a = None → is_Some (nodes r.2 !! Tok SINK))
  ∧ (counter d < counter r.2)%nat.
Proof.
  intros Hname r. unfold r. rewrite add_function_unfold.
  unfold function_name. rewrite Hname. simpl.
  destruct (token_state_spec (fa_inputs a) START d) as (Hs1 & He1 & Ht1 & Hn1).
  set (d1 := token_state (fa_inputs a) START d) in *.
  destruct (token_state_spec (fa_outputs a) SINK d1) as (Hs2 & He2 & Ht2 & Hn2).
  set (d2 := token_state (fa_outputs a) SINK d1) in *.
  assert ((counter d ≤ counter d1)%nat ∧ (counter d1 ≤ counter d2)%nat)
    as [Hc1 Hc2].
  { split; apply token_state_counter. }
  split_and!.
  - done.
  - by rewrite He2, He1.
  - by etrans.
  - intros j. destruct (Hn2 j) as [Hj2|[? ->]]; [|by right; right].
    destruct (Hn1 j) as [Hj1|[? ->]]; [left|by right; left].
    etrans; [exact Hj2|exact Hj1].
  - intros Hi. destruct (Ht1 Hi) as [Hs _].
    by eapply lookup_weaken_is_Some.
  - intros Ho. by destruct (Ht2 Ho) as [Hs _].
  - lia.
Qed.

Lemma add_function_nameless_witness :
  let r := add_function None function_defaults example_dsp in
  r.1 = Raise ValueError_invalid_function_id
  ∧ nodes example_dsp !! Tok START = None
  ∧ is_Some (nodes r.2 !! Tok START)
  ∧ is_Some (nodes r.2 !! Tok SINK).
Proof.
  intros r.
  destruct (add_function_nameless function_defaults example_dsp eq_refl)
    as (Hr & _ & _ & _ & Hi & Ho & _).
  split_and!; [exact Hr|vm_compute; reflexivity|by apply Hi|by apply Ho].
Defined.

(** ** Remote links *)

Lemma with_dmap_id d : with_dmap (mkDiGraph (nodes d) (edge (dmap d))) d = d.
Proof. by destruct d as [[]]. Qed.

(** What [set_data_remote_link] does after the sink is seen to. *)
Definition set_link (k : node_id) (l : option remote_link) (is_parent : bool)
    (d : Dispatcher) : res unit * Dispatcher :=
  match node_type (dmap d) k, nodes d !! k with
  | Ok t, Some nd =>
      if decide (t = VStr "data") then
        match l with
        | None =>
            match default (VLinks []) (nd !! "remote_links") with
            | VLinks [] =>
                (Ok tt, with_dmap
                  (mkDiGraph (<[k := delete "remote_links" nd]> (nodes d))
                             (edge (dmap d))) d)
            | VLinks [_] => (Raise IndexError, d)
            | VLinks _ => (Ok tt, d)
            | _ => (Raise TypeError, d)
            end
        | Some l =>
            match default (VLinks []) (nd !! "remote_links") with
            | VLinks rl =>
                (Ok tt, with_dmap
                  (mkDiGraph
                     (<[k := <["remote_links" :=
                                 VLinks (if decide ((l, link_type_of is_parent) ∈ rl)
                                         then rl
                                         else rl ++ [(l, link_type_of is_parent)])]>
                               nd]> (nodes d))
                     (edge (dmap d))) d)
            | _ => (Raise TypeError, d)
            end
        end
      else (Raise (ValueError_not_a_data_node k), d)
  | _, _ => (Raise (ValueError_not_a_data_node k), d)
  end.

Lemma set_link_run k l is_parent d :
  (d0 ←ᴹ get;
   match node_type (dmap d0) k, nodes d0 !! k with
   | Ok t, Some nd =>
       if decide (t = VStr "data") then
         let type := link_type_of is_parent in
         match l with
         | None =>
             match default (VLinks []) (nd !! "remote_links") with
             | VLinks [] =>
                 modify (λ d, with_dmap
                   (mkDiGraph (<[k := delete "remote_links" nd]> (nodes d))
                              (edge (dmap d))) d)
             | VLinks [_] => raise IndexError
             | VLinks _ => ret tt
             | _ => raise TypeError
             end
         | Some l =>
             match default (VLinks []) (nd !! "remote_links") with
             | VLinks rl =>
                 let rl' := if decide ((l, type) ∈ rl) then rl
                            else rl ++ [(l, type)] in
                 modify (λ d, with_dmap
                   (mkDiGraph
                      (<[k := <["remote_links" := VLinks rl']> nd]> (nodes d))
                      (edge (dmap d))) d)
             | _ => raise TypeError
             end
         end
       else raise (ValueError_not_a_data_node k)
   | _, _ => raise (ValueError_not_a_data_node k)
   end) d
  = set_link k l is_parent d.
Proof.
  unfold set_link, bind, get. simpl.
  destruct (node_type (dmap d) k) as [t|]; [|done].
  destruct (nodes d !! k) as [nd|]; [|done].
  case_decide; [|done].
  destruct l as [l|].
  - by destruct (default _ _).
  - destruct (default _ _) as [| | | | | | | | |rl| |]; try done.
    by destruct rl as [|? [|??]].
Qed.

Lemma set_data_remote_link_unfold k l is_parent d :
  set_data_remote_link k l is_parent d
  = if bool_decide (is_Some l ∧ k = Tok SINK ∧ nodes d !! k = None)
    then match add_data (Some (Tok SINK)) data_defaults d with
         | (Ok _, d1) => set_link k l is_parent d1
         | (Raise e, d1) => (Raise e, d1)
         end
    else set_link k l is_parent d.
Proof.
  unfold set_data_remote_link.
  unfold bind at 1. unfold get at 1. cbv beta iota.
  unfold bind at 1.
  case_bool_decide.
  - unfold bind at 1.
    destruct (add_data (Some (Tok SINK)) data_defaults d) as [[i|e] d1];
      [|done].
    unfold ret at 1. cbv beta iota. apply set_link_run.
  - unfold ret at 1. cbv beta iota. apply set_link_run.
Qed.

(** [set_data_remote_link] on a node that is there. *)
Lemma set_data_remote_link_node k l is_parent d :
  is_Some (nodes d !! k) →
  set_data_remote_link k l is_parent d = set_link k l is_parent d.
Proof.
  intros Hk. rewrite set_data_remote_link_unfold.
  rewrite bool_decide_eq_false_2; [done|].
  intros (_ & _ & Hn). rewrite Hn in Hk. by destruct Hk.
Qed.

(** On an id that is no node: the sink is added first, any other id is
    refused. *)
Lemma set_data_remote_link_absent k l is_parent d :
  nodes d !! k = None →
  set_data_remote_link k (Some l) is_parent d
  = if decide (k = Tok SINK)
    then set_data_remote_link k (Some l) is_parent
           (add_data (Some (Tok SINK)) data_defaults d).2
    else (Raise (ValueError_not_a_data_node k), d).
Proof.
  intros Hk. rewrite set_data_remote_link_unfold. case_decide as Hs.
  - subst k.
    rewrite bool_decide_eq_true_2 by (split_and!; [by eexists|done..]).
    destruct (add_data_new d (Tok SINK) data_defaults Hk eq_refl)
      as (attr & dv & Hadd & Hty).
    rewrite Hadd. simpl. rewrite set_data_remote_link_node; [done|].
    unfold nodes. simpl. by rewrite lookup_insert_eq.
  - rewrite bool_decide_eq_false_2 by (by intros (_ & ? & _)).
    unfold set_link, node_type. fold (nodes d). by rewrite Hk.
Qed.

(** X4.  [set_data_remote_link] on an id that is a node but not a data
    node raises [ValueError] and changes nothing. *)
Theorem set_data_remote_link_not_data k l is_parent d :
  is_Some (nodes d !! k) → ¬ is_data_node d k →
  set_data_remote_link k l is_parent d
  = (Raise (ValueError_not_a_data_node k), d).
Proof.
  intros Hk Hnd. rewrite set_data_remote_link_node by done.
  unfold set_link. unfold is_data_node in Hnd.
  destruct (node_type (dmap d) k) as [t|]; [|done].
  destruct (nodes d !! k); [|done].
  rewrite decide_False; [done|]. by intros ->.
Qed.

Lemma set_data_remote_link_not_data_witness :
  set_data_remote_link (Str "f") (Some (Str "sub", 2%positive)) true example_dsp
  = (Raise (ValueError_not_a_data_node (Str "f")), example_dsp).
Proof.
  apply set_data_remote_link_not_data.
  - apply (bool_decide_unpack _). vm_compute. exact I.
  - vm_compute. discriminate.
Defined.

(** X5.  Setting a remote link is idempotent: when the call returns,
    the link is among the remote links of the node with its direction,
    and the same call again returns and leaves the dispatcher exactly as
    it is; a link is never recorded twice. *)
Theorem set_data_remote_link_idempotent k l is_parent d :
  let r := set_data_remote_link k (Some l) is_parent d in
  r.1 = Ok tt →
  (∃ nd rl, nodes r.2 !! k = Some nd
     ∧ nd !! "remote_links" = Some (VLinks rl)
     ∧ (l, link_type_of is_parent) ∈ rl)
  ∧ set_data_remote_link k (Some l) is_parent r.2 = (Ok tt, r.2).
Proof.
  intros r Hr.
  assert (∃ d1, is_Some (nodes d1 !! k)
            ∧ r = set_data_remote_link k (Some l) is_parent d1)
    as (d1 & Hk1 & Hr1).
  { destruct (nodes d !! k) as [x|] eqn:Hx; [by exists d|].
    unfold r in *. rewrite set_data_remote_link_absent in * by done.
    case_decide as Hs; [|done]. subst k.
    eexists. split; [|reflexivity].
    destruct (add_data_new d (Tok SINK) data_defaults Hx eq_refl)
      as (attr & dv & -> & _).
    unfold nodes. simpl. by rewrite lookup_insert_eq. }
  rewrite Hr1 in *. clear Hr1 r. set (r := set_data_remote_link _ _ _ d1) in *.
  assert (∃ nd rl,
    nodes d1 !! k = Some nd ∧ nd !! "type" = Some (VStr "data")
    ∧ r.2 = with_dmap
        (mkDiGraph
           (<[k := <["remote_links" :=
                       VLinks (if decide ((l, link_type_of is_parent) ∈ rl)
                               then rl
                               else rl ++ [(l, link_type_of is_parent)])]>
                     nd]> (nodes d1))
           (edge (dmap d1))) d1) as (nd & rl & Hnd & Hty & Hr2).
  { unfold r in *. rewrite set_data_remote_link_node in * by done.
    unfold set_link in *.
    destruct (node_type (dmap d1) k) as [t|] eqn:Ht; [|done].
    destruct (nodes d1 !! k) as [nd|] eqn:Hn; [|done].
    case_decide as Hdata; [|done]. subst t.
    apply node_type_Ok in Ht as (x & Hx & Hxt). fold (nodes d1) in Hx.
    rewrite Hn in Hx. injection Hx as <-.
    destruct (default _ _) as [| | | | | | | | |rl| |]; try done.
    by exists nd, rl. }
  set (rl' := if decide ((l, link_type_of is_parent) ∈ rl) then rl
              else rl ++ [(l, link_type_of is_parent)]) in *.
  assert ((l, link_type_of is_parent) ∈ rl') as Hin.
  { unfold rl'. case_decide; [done|]. apply elem_of_app. right. by left. }
  set (nd' := <["remote_links" := VLinks rl']> nd) in *.
  assert (nodes r.2 !! k = Some nd') as Hk.
  { rewrite Hr2. unfold nodes. simpl. by rewrite lookup_insert_eq. }
  split.
  { exists nd', rl'. split_and!; [done| |done].
    unfold nd'. by rewrite lookup_insert_eq. }
  rewrite set_data_remote_link_node by (by rewrite Hk).
  unfold set_link.
  assert (node_type (dmap r.2) k = Ok (VStr "data")) as ->.
  { apply node_type_Ok. exists nd'. split; [exact Hk|].
    unfold nd'. by rewrite lookup_insert_ne. }
  rewrite Hk. rewrite decide_True by done.
  unfold nd' at 1. rewrite lookup_insert_eq. simpl.
  rewrite decide_True by done.
  f_equal.
  assert (<["remote_links" := VLinks rl']> nd' = nd') as ->
    by (unfold nd'; by rewrite insert_insert_eq).
  rewrite insert_id by done. apply with_dmap_id.
Qed.

Lemma set_data_remote_link_idempotent_witness :
  let r := set_data_remote_link (Str "a") (Some (Str "sub", 2%positive)) true
             example_dsp in
  r.1 = Ok tt
  ∧ set_data_remote_link (Str "a") (Some (Str "sub", 2%positive)) true r.2
    = (Ok tt, r.2).
Proof.
  intros r.
  assert (r.1 = Ok tt) as Hr by (vm_compute; reflexivity).
  split; [exact Hr|].
  exact (proj2 (set_data_remote_link_idempotent (Str "a")
                  (Str "sub", 2%positive) true example_dsp Hr)).
Defined.

(** X6.  Called without a remote link (the default [EMPTY]), which is
    meant to remove the links of one direction, [set_data_remote_link]
    removes no link at all: on a data node with one recorded link it
    raises [IndexError], on a data node with more links it returns, and
    in both cases the dispatcher is left as it is. *)
Theorem set_data_remote_link_empty k is_parent d rl :
  is_data_node d k →
  nodes d !! k ≫= (.!! "remote_links") = Some (VLinks rl) → rl ≠ [] →
  set_data_remote_link k None is_parent d
  = (if decide (length rl = 1) then Raise IndexError else Ok tt, d).
Proof.
  intros Hd Hrl Hne.
  destruct (nodes d !! k) as [nd|] eqn:Hk; [|done]. simpl in Hrl.
  rewrite set_data_remote_link_node by (by rewrite Hk).
  unfold set_link. unfold is_data_node in Hd. rewrite Hd, Hk.
  rewrite decide_True by done.
  rewrite Hrl. simpl. by destruct rl as [|? [|??]].
Qed.

Lemma set_data_remote_link_empty_witness :
  let l1 := (Str "sub", 2%positive) in
  let l2 := (Str "sub", 3%positive) in
  let d1 := (set_data_remote_link (Str "a") (Some l1) true example_dsp).2 in
  let d2 := (set_data_remote_link (Str "a") (Some l2) true d1).2 in
  set_data_remote_link (Str "a") None true d1 = (Raise IndexError, d1)
  ∧ set_data_remote_link (Str "a") None true d2 = (Ok tt, d2).
Proof.
  intros l1 l2 d1 d2. split.
  - rewrite (set_data_remote_link_empty (Str "a") true d1 [(l1, Parent)]);
      [done|vm_compute; reflexivity|vm_compute; reflexivity|discriminate].
  - rewrite (set_data_remote_link_empty (Str "a") true d2
               [(l1, Parent); (l2, Parent)]);
      [done|vm_compute; reflexivity|vm_compute; reflexivity|discriminate].
Defined.

(** ** What [get_sub_dsp] returns is a part of the dispatcher *)

(** A graph whose nodes and edges are nodes and edges of another, with
    the same attributes. *)
Definition sub_graph (g' g : DiGraph) : Prop :=
  node g' ⊆ node g ∧ edge g' ⊆ edge g.

#[local] Instance sub_graph_preorder : PreOrder sub_graph.
Proof.
  split.
  - by intros g.
  - intros g1 g2 g3 [H1 H2] [H3 H4]. split; by etrans.
Qed.

Lemma restrict_sub_graph P `{∀ u, Decision (P u)} g :
  sub_graph (restrict P g) g.
Proof. split; apply map_filter_subseteq. Qed.

Lemma remove_nodes_from_sub_graph l g : sub_graph (remove_nodes_from l g) g.
Proof. rewrite remove_nodes_from_restrict. apply restrict_sub_graph. Qed.

Lemma remove_node_sub_graph n g g' :
  remove_node n g = Ok g' → sub_graph g' g.
Proof.
  unfold remove_node. case_match; [|done]. intros [= <-].
  rewrite drop_node_remove_nodes_from. apply remove_nodes_from_sub_graph.
Qed.

Lemma remove_no_inputs_sub_graph NB todo :
  ∀ g g', remove_no_inputs todo NB g = Ok g' → sub_graph g' g.
Proof.
  induction todo as [|u todo IH]; intros g g'; simpl.
  { by intros [= <-]. }
  destruct (node g !! u) as [a|]; [|done].
  assert (∀ n, match inputs_set n with
               | Ok l =>
                   if decide (l ⊆ NB) then remove_no_inputs todo NB g
                   else match remove_node u g with
                        | Ok g1 => remove_no_inputs todo NB g1
                        | Raise e => Raise e
                        end
               | Raise e => Raise e
               end = Ok g' → sub_graph g' g) as Hstep.
  { intros n. destruct (inputs_set n); [|done]. case_decide; [apply IH|].
    destruct (remove_node u g) as [g1|] eqn:Hr; [|done].
    intros Hrun. etrans; [by apply IH|by eapply remove_node_sub_graph]. }
  destruct (a !! "inputs") as [n|]; [|apply IH].
  destruct n; first [apply IH|apply Hstep].
Qed.

Lemma remove_edges_sub_graph E :
  ∀ g g', remove_edges E g = Ok g' →
    sub_graph g' g ∧ ∀ e, e ∈ E → edge g' !! e = None.
Proof.
  induction E as [|[u v] es IH]; intros g g'; simpl.
  { intros [= <-]. split; [done|]. by intros e ?%not_elem_of_nil. }
  unfold remove_edge. destruct (edge g !! (u, v)) as [a|]; [|done].
  intros Hrun. apply IH in Hrun as [[Hn He] Hgone].
  simpl in *. split.
  - split; [done|]. etrans; [exact He|]. apply delete_subseteq.
  - intros e [->|He']%elem_of_cons; [|by apply Hgone].
    eapply lookup_weaken_None; [|exact He]. apply lookup_delete_eq.
Qed.

Lemma remove_no_outputs_sub_graph us :
  ∀ g g', remove_no_outputs us g = Ok g' → sub_graph g' g.
Proof.
  induction us as [|u us IH]; intros g g'; simpl.
  { by intros [= <-]. }
  case_decide; [|apply IH].
  destruct (remove_node u g) as [g1|] eqn:Hr; [|done].
  intros Hrun. etrans; [by apply IH|by eapply remove_node_sub_graph].
Qed.

Lemma not_isolated_restrict g u :
  is_Some (node (restrict (λ u, ¬ isolated g u) g) !! u) →
  ¬ isolated (restrict (λ u, ¬ isolated g u) g) u.
Proof.
  rewrite restrict_node. case_decide as Hu; [|by intros []].
  intros _ Hiso. apply Hu. rewrite isolated_iff in Hiso |- *.
  intros v. specialize (Hiso v). rewrite !restrict_edge in Hiso. simpl in Hiso.
  destruct Hiso as [H1 H2]. split.
  - destruct (edge g !! (u, v)) as [a|] eqn:He; [|done].
    rewrite decide_True in H1; [done|]. split; [done|].
    rewrite isolated_iff. intros Hv. destruct (Hv u). congruence.
  - destruct (edge g !! (v, u)) as [a|] eqn:He; [|done].
    rewrite decide_True in H2; [done|]. split; [|done].
    rewrite isolated_iff. intros Hv. destruct (Hv u). congruence.
Qed.

(** X7.  Whenever [get_sub_dsp] returns, for any node and edge bunches
    and any dispatcher, what it returns is a part of the dispatcher: every
    node of the result is a node of the dispatcher listed in the bunch,
    with the same attributes; every edge is an edge of the dispatcher with
    the same attributes, and none is an edge of the edge bunch; no node of
    the result is isolated; and the defaults of the result are defaults of
    the dispatcher, held by nodes of the result. *)
Theorem get_sub_dsp_sound N E d d' :
  get_sub_dsp N E d = Ok d' →
  nodes d' ⊆ nodes d
  ∧ edge (dmap d') ⊆ edge (dmap d)
  ∧ (∀ u, is_Some (nodes d' !! u) → u ∈ N)
  ∧ (∀ e, e ∈ default [] E → edge (dmap d') !! e = None)
  ∧ (∀ u, is_Some (nodes d' !! u) → ¬ isolated (dmap d') u)
  ∧ default_values d' ⊆ default_values d
  ∧ (∀ k, is_Some (default_values d' !! k) → is_Some (nodes d' !! k)).
Proof.
  unfold get_sub_dsp.
  destruct (real_paths d N) as [N'|] eqn:HN; [|done].
  assert (N' = N) as ->.
  { revert N' HN. induction N as [|u N IH]; intros N'; simpl.
    { by intros [= <-]. }
    unfold get_node. destruct (has_node _ u); [|done].
    destruct (real_paths d N) as [N1|]; [|done].
    intros [= <-]. f_equal. by apply IH. }
  cbv zeta. set (sub_dsp := copy_structure _ d).
  change (dmap sub_dsp) with (dmap_or_new (Some (subgraph N (dmap d)))).
  set (g0 := dmap_or_new (Some (subgraph N (dmap d)))).
  assert (sub_graph g0 (dmap d) ∧ ∀ u, is_Some (node g0 !! u) → u ∈ N)
    as [Hg0 HN0].
  { unfold g0, dmap_or_new. case_decide.
    - split; [split; apply map_empty_subseteq|].
      intros u. simpl. rewrite lookup_empty. by intros [].
    - split; [rewrite subgraph_restrict; apply restrict_sub_graph|].
      intros u [a Ha]. simpl in Ha.
      by apply map_lookup_filter_Some in Ha as [_ ?]. }
  destruct (remove_no_inputs N N g0) as [g1|] eqn:H1; [|done].
  apply remove_no_inputs_sub_graph in H1.
  destruct (remove_edges (default [] E) g1) as [g2|] eqn:H2; [|done].
  apply remove_edges_sub_graph in H2 as [H2 Hgone].
  destruct (function_ids _) as [fs|]; [|done].
  destruct (remove_no_outputs fs g2) as [g3|] eqn:H3; [|done].
  apply remove_no_outputs_sub_graph in H3.
  intros [= <-]. simpl.
  set (g4 := remove_nodes_from (isolates g3) g3).
  assert (sub_graph g4 g3) as H4 by apply remove_nodes_from_sub_graph.
  assert (sub_graph g4 g2) as H42 by (by etrans).
  assert (sub_graph g4 g0) as H40 by (etrans; [exact H42|by etrans]).
  assert (sub_graph g4 (dmap d)) as [Hn He] by (by etrans).
  unfold nodes. simpl. split_and!.
  - done.
  - done.
  - intros u Hu. apply HN0. destruct H40 as [Hn0 _].
    by eapply lookup_weaken_is_Some.
  - intros e He'. eapply lookup_weaken_None; [by apply Hgone|].
    by destruct H42.
  - intros u Hu. unfold g4 in *. rewrite remove_isolates in *.
    by apply not_isolated_restrict.
  - apply map_filter_subseteq.
  - intros k [x Hx]. by apply map_lookup_filter_Some in Hx as [_ ?].
Qed.

Lemma get_sub_dsp_sound_witness :
  ∃ d', get_sub_dsp [Str "a"; Str "f"; Str "b"] None example_dsp = Ok d'
     ∧ nodes d' ⊆ nodes example_dsp
     ∧ edge (dmap d') ⊆ edge (dmap example_dsp)
     ∧ default_values d' ⊆ default_values example_dsp.
Proof.
  destruct (get_sub_dsp [Str "a"; Str "f"; Str "b"] None example_dsp)
    as [d'|e] eqn:Hrun; [|vm_compute in Hrun; discriminate].
  exists d'.
  destruct (get_sub_dsp_sound _ _ _ _ Hrun) as (Hn & He & _ & _ & _ & Hd & _).
  split_and!; [reflexivity|exact Hn|exact He|exact Hd].
Defined.

(** ** The defaults a sub-dispatcher hands over *)

(** X8.  The import of the defaults in [add_dispatcher]
    ([include_defaults=True]), when it returns: the graph of the parent is
    as it was; the child keeps none of the defaults of the ids its inputs
    are mapped to first, and gains none; and every default the parent
    holds afterwards is one it held before or the default the child had
    for the id an input is mapped to first, now held under that input. *)
Theorem import_defaults_moves inputs :
  ∀ remove dfl self self' dfl',
    import_defaults inputs remove dfl self = (Ok tt, self', dfl') →
    dmap self' = dmap self
    ∧ dfl' ⊆ dfl
    ∧ (∀ k t v, (k, t) ∈ inputs → head (stlp t) = Some v → dfl' !! v = None)
    ∧ (∀ v, v ∈ remove → dfl' !! v = None)
    ∧ (∀ k e, default_values self' !! k = Some e →
         default_values self !! k = Some e
         ∨ ∃ t v, (k, t) ∈ inputs ∧ head (stlp t) = Some v
                  ∧ dfl !! v = Some e).
Proof.
  assert (∀ (l : list node_id) (m : gmap node_id default_entry),
            foldl (λ m k, delete k m) m l ⊆ m
            ∧ ∀ v, v ∈ l → foldl (λ m k, delete k m) m l !! v = None)
    as Hfold.
  { induction l as [|x l IH]; intros m; simpl.
    { split; [done|]. by intros v ?%not_elem_of_nil. }
    destruct (IH (delete x m)) as [Hs Hg]. split.
    - etrans; [exact Hs|apply delete_subseteq].
    - intros v [->|Hv]%elem_of_cons; [|by apply Hg].
      eapply lookup_weaken_None; [apply lookup_delete_eq|exact Hs]. }
  assert (∀ k v (e : default_entry) inputs' remove dfl self self' dfl',
    dfl !! v = Some e →
    (∀ self1, set_default_value k (dv_value e) (initial_dist e) self
              = (Ok tt, self1) →
       import_defaults inputs' remove (delete v dfl) self1
       = (Ok tt, self', dfl') →
       dmap self' = dmap self1
       ∧ dfl' ⊆ delete v dfl
       ∧ (∀ k t v, (k, t) ∈ inputs' → head (stlp t) = Some v →
            dfl' !! v = None)
       ∧ (∀ v, v ∈ remove → dfl' !! v = None)
       ∧ (∀ k e, default_values self' !! k = Some e →
            default_values self1 !! k = Some e
            ∨ ∃ t v0, (k, t) ∈ inputs' ∧ head (stlp t) = Some v0
                      ∧ delete v dfl !! v0 = Some e)) →
    ∀ t0, head (stlp t0) = Some v →
    match set_default_value k (dv_value e) (initial_dist e) self with
    | (Ok _, self1) => import_defaults inputs' remove (delete v dfl) self1
    | (Raise x, self1) => (Raise x, self1, delete v dfl)
    end = (Ok tt, self', dfl') →
    dmap self' = dmap self
    ∧ dfl' ⊆ dfl
    ∧ (∀ k' t v', (k', t) ∈ (k, t0) :: inputs' → head (stlp t) = Some v' →
         dfl' !! v' = None)
    ∧ (∀ v, v ∈ remove → dfl' !! v = None)
    ∧ (∀ k' e', default_values self' !! k' = Some e' →
         default_values self !! k' = Some e'
         ∨ ∃ t v0, (k', t) ∈ (k, t0) :: inputs' ∧ head (stlp t) = Some v0
                   ∧ dfl !! v0 = Some e')) as Hstep.
  { intros k v e inputs' remove dfl self self' dfl' He IH t0 Ht0 Hrun.
    pose proof (set_default_value_dmap k (dv_value e) (initial_dist e) self)
      as Hdm.
    destruct (set_default_value k (dv_value e) (initial_dist e) self)
      as [[[]|x] self1] eqn:Hset; [|done].
    destruct (IH self1 eq_refl Hrun) as (H1 & H2 & H3 & H4 & H5).
    simpl in Hdm. split_and!.
    - congruence.
    - etrans; [exact H2|apply delete_subseteq].
    - intros k' t v' [[= -> ->]|Hin]%elem_of_cons Hh.
      + rewrite Ht0 in Hh. injection Hh as <-.
        eapply lookup_weaken_None; [apply lookup_delete_eq|exact H2].
      + by eapply H3.
    - done.
    - intros k' e' Hk'. destruct (H5 k' e' Hk') as [Hold|(t & v0 & Hin & Hh & Hd)].
      + unfold set_default_value in Hset.
        destruct (node_type _ _) as [ty|]; [|done].
        case_decide; [|done].
        case_decide; injection Hset as <-; simpl in Hold.
        * left. by apply lookup_delete_Some in Hold as [_ ?].
        * destruct (decide (k' = k)) as [->|Hne].
          -- rewrite lookup_insert_eq in Hold. injection Hold as <-.
             right. exists t0, v. split_and!; [by left|done|].
             by destruct e.
          -- rewrite lookup_insert_ne in Hold by done. by left.
      + right. exists t, v0. split_and!; [by right|done|].
        by apply lookup_delete_Some in Hd as [_ ?]. }
  induction inputs as [|[k [v|[|v0 vs]]] inputs IH];
    intros remove dfl self self' dfl'; simpl.
  - intros [= <- <-]. destruct (Hfold remove dfl) as [Hs Hg].
    split_and!; [done|done| |done|by left].
    by intros k t v ?%not_elem_of_nil.
  - destruct (dfl !! v) as [e|] eqn:He.
    + apply (Hstep k v e inputs remove dfl self self' dfl' He); [|done].
      intros self1 _ Hrun. by apply IH.
    + intros Hrun. destruct (IH _ _ _ _ _ Hrun) as (H1 & H2 & H3 & H4 & H5).
      split_and!; [done|done| |done|].
      * intros k' t v' [[= -> ->]|Hin]%elem_of_cons Hh; [|by eapply H3].
        injection Hh as <-. by eapply lookup_weaken_None.
      * intros k' e' Hk'. destruct (H5 k' e' Hk') as [?|(t & v1 & ? & ? & ?)];
          [by left|right]. exists t, v1. split_and!; [by right|done..].
  - done.
  - destruct (dfl !! v0) as [e|] eqn:He.
    + intros Hrun.
      destruct (Hstep k v0 e inputs (remove ++ vs) dfl self self' dfl' He)
        with (t0 := Many (v0 :: vs)) as (H1 & H2 & H3 & H4 & H5);
        [|done|done|].
      { intros self1 _ Hrun'. by apply IH. }
      split_and!; [done|done|done| |done].
      intros v Hv. apply H4. apply elem_of_app. by left.
    + intros Hrun. destruct (IH _ _ _ _ _ Hrun) as (H1 & H2 & H3 & H4 & H5).
      split_and!; [done|done| |done|].
      * intros k' t v' [[= -> ->]|Hin]%elem_of_cons Hh; [|by eapply H3].
        injection Hh as <-. by eapply lookup_weaken_None.
      * intros k' e' Hk'. destruct (H5 k' e' Hk') as [?|(t & v1 & ? & ? & ?)];
          [by left|right]. exists t, v1. split_and!; [by right|done..].
Qed.

Lemma import_defaults_moves_witness :
  let parent := (add_data (Some (Str "A")) data_defaults
                   (Dispatcher_init None "Parent" None false "" None)).2 in
  let r := import_defaults [(Str "A", One (Str "a"))] []
             (default_values example_dsp) parent in
  r.1.1 = Ok tt
  ∧ is_Some (default_values example_dsp !! Str "a")
  ∧ r.2 !! Str "a" = None
  ∧ dmap r.1.2 = dmap parent.
Proof.
  intros parent r.
  assert (r = (Ok tt, r.1.2, r.2)) as Hrun by (vm_compute; reflexivity).
  destruct (import_defaults_moves _ _ _ _ _ _ Hrun) as (H1 & _ & H3 & _).
  split_and!; [vm_compute; reflexivity|by vm_compute; eexists| |exact H1].
  eapply H3; [by left|reflexivity].
Defined.

(** ** [copy_structure] *)

(** X9.  [copy_structure] copies the settings of the dispatcher, not its
    structure: whatever the dispatcher holds, the copy made without
    keywords has no node, no edge and no default value and its index
    counter starts again at zero, with the name, the description, the
    raises flag, the weight and the stopper of the dispatcher.  A keyword
    replaces the setting it names; for the stopper, the keyword
    [stopper=None] gives the copy the event of the class instead of the
    one of the dispatcher. *)
Theorem copy_structure_settings kw d :
  let c := copy_structure kw d in
  counter c = 0
  ∧ weight c = weight d
  ∧ name c = default (name d) (kw_name kw)
  ∧ doc c = default (doc d) (kw_description kw)
  ∧ raises_ c = default (raises_ d) (kw_raises kw)
  ∧ (kw_stopper kw = None → stopper c = stopper d)
  ∧ (kw_stopper kw = Some None → stopper c = Dispatcher_stopper)
  ∧ (∀ s, kw_stopper kw = Some (Some s) → stopper c = s)
  ∧ (kw_dmap kw = None → nodes c = ∅ ∧ edge (dmap c) = ∅)
  ∧ (kw_default_values kw = None → default_values c = ∅).
Proof.
  unfold copy_structure. simpl. split_and!; try done.
  - by intros ->.
  - by intros ->.
  - by intros s ->.
  - by intros ->.
  - by intros ->.
Qed.

Lemma copy_structure_settings_witness :
  nodes example_dsp ≠ ∅
  ∧ nodes (copy_structure no_kwargs example_dsp) = ∅
  ∧ default_values (copy_structure no_kwargs example_dsp) = ∅
  ∧ stopper (copy_structure
               (mkInitKwargs None None None None None (Some None))
               (Dispatcher_init None "d" None false "" (Some 5%positive)))
    = Dispatcher_stopper.
Proof.
  destruct (copy_structure_settings no_kwargs example_dsp)
    as (_ & _ & _ & _ & _ & _ & _ & _ & Hg & Hd).
  destruct (copy_structure_settings
              (mkInitKwargs None None None None None (Some None))
              (Dispatcher_init None "d" None false "" (Some 5%positive)))
    as (_ & _ & _ & _ & _ & _ & Hs & _).
  split_and!.
  - intros He. assert (nodes example_dsp !! Str "a" = None) as Ha
      by (by rewrite He). vm_compute in Ha. discriminate.
  - by apply Hg.
  - by apply Hd.
  - by apply Hs.
Defined.

(** * Further functions of [schedula/utils/dsp.py] *)

(** [selector] with its [allow_miss] argument: the keys that pass [check]
    are looked up. *)
Definition selector_allow_miss {W} (keys : list node_id)
    (dictionary : gmap node_id value) (output_type : string)
    (allow_miss : bool) : option (pyret W) :=
  let check (key : node_id) : bool :=
    if allow_miss then bool_decide (is_Some (dictionary !! key)) else true in
  let keys := filter (λ k, check k = true) keys in
  if decide (output_type = "list") then
    RList <$> lookups keys dictionary
  else if decide (output_type = "values") then
    bypass <$> lookups keys dictionary
  else
    (λ vs, RDict (list_to_map (zip keys vs))) <$> lookups keys dictionary.


(** The functions [parent_func] looks through: a function with a name, a
    [functools.partial] with its positional arguments, an [add_args] with
    its [n], and a [parse_args], which is an [add_args] by inheritance but
    has no [n]. *)
Inductive pyfunc :=
  | Func (name : string)
  | Partial (func : pyfunc) (args : list value)
  | Add_args (func : pyfunc) (n : Z)
  | Parse_args (func : pyfunc) (magic_arg : Z).

Inductive attr_res (A : Type) :=
  | Found (a : A)
  | AttributeError (attr : string).
Arguments Found {A}.
Arguments AttributeError {A}.

(** [parent_func(func, input_id)]: the function, with the input id when
    one is given. *)
Fixpoint parent_func (func : pyfunc) (input_id : option Z)
  : attr_res (pyfunc * option Z) :=
  match func with
  | Partial f args =>
      parent_func f ((λ i, i + Z.of_nat (length args))%Z <$> input_id)
  | Add_args f n => parent_func f ((λ i, i - n)%Z <$> input_id)
  | Parse_args f _ =>
      match input_id with
      | Some _ => AttributeError "n"
      | None => parent_func f None
      end
  | Func _ => Found (func, input_id)
  end.

(** The function under the wrappers, and by how much they shift the
    position of an input. *)
Fixpoint innermost (func : pyfunc) : pyfunc :=
  match func with
  | Partial f _ | Add_args f _ | Parse_args f _ => innermost f
  | Func _ => func
  end.

Fixpoint shift (func : pyfunc) : Z :=
  match func with
  | Partial f args => (Z.of_nat (length args) + shift f)%Z
  | Add_args f n => (shift f - n)%Z
  | Parse_args f _ => shift f
  | Func _ => 0%Z
  end.

Fixpoint has_parse_args (func : pyfunc) : bool :=
  match func with
  | Partial f _ | Add_args f _ => has_parse_args f
  | Parse_args _ _ => true
  | Func _ => false
  end.

(** ** Dictionaries *)

(** X10.  [combine_dicts] of no dictionary is empty, of one dictionary is
    that dictionary; combining in two steps is combining at once; and the
    keys of the result are the keys of the dictionaries. *)
Theorem combine_dicts_steps (l1 l2 : list (gmap node_id value)) d :
  combine_dicts [] = ∅
  ∧ combine_dicts [d] = d
  ∧ combine_dicts (combine_dicts l1 :: l2) = combine_dicts (l1 ++ l2)
  ∧ ∀ k, is_Some (combine_dicts l1 !! k) ↔ ∃ d, d ∈ l1 ∧ is_Some (d !! k).
Proof.
  split_and!.
  - done.
  - unfold combine_dicts. simpl. apply (right_id_L ∅ (∪)).
  - unfold combine_dicts. rewrite foldl_app. simpl.
    by rewrite (right_id_L ∅ (∪)).
  - intros k. induction l1 as [|x l1 IH] using rev_ind.
    + unfold combine_dicts. simpl. rewrite lookup_empty. split.
      * by intros [].
      * by intros (? & ?%not_elem_of_nil & _).
    + rewrite combine_dicts_snoc, lookup_union_is_Some, IH. split.
      * intros [Hx|(d' & Hd' & Hk)].
        -- exists x. split; [|done]. apply elem_of_app. right. by left.
        -- exists d'. split; [|done]. apply elem_of_app. by left.
      * intros (d' & [Hd'| ->%list_elem_of_singleton]%elem_of_app & Hk).
        -- right. by exists d'.
        -- by left.
Qed.

Lemma map_list_snoc keys vals k v :
  length keys = length vals →
  map_list (keys ++ [k]) (vals ++ [v]) = <[k := v]> (map_list keys vals).
Proof.
  intros Hlen. unfold map_list.
  rewrite zip_with_app by done.
  exact (foldl_snoc (λ (d : gmap node_id value) mv, <[mv.1 := mv.2]> d) ∅
           (zip keys vals) (k, v)).
Qed.

(** X11.  [map_list] over a key list without repetition and as many
    values: every key is bound to the value at its position, so
    [selector] gives the values back in the order of the keys, and the
    dictionary has no other key; values beyond the keys are dropped. *)
Theorem map_list_selector keys vals :
  NoDup keys → length keys = length vals →
  lookups keys (map_list keys vals) = Some vals
  ∧ selector (W:=unit) keys (map_list keys vals) "list" = Some (RList vals)
  ∧ (∀ k, is_Some (map_list keys vals !! k) ↔ k ∈ keys)
  ∧ (∀ more, map_list keys (vals ++ more) = map_list keys vals).
Proof.
  intros Hnd Hlen.
  assert (lookups keys (map_list keys vals) = Some vals
          ∧ ∀ k, is_Some (map_list keys vals !! k) ↔ k ∈ keys) as [Hl Hdom].
  { revert vals Hlen.
    induction keys as [|k keys IH] using rev_ind; intros vals Hlen.
    { destruct vals; [|done]. split; [done|]. intros k.
      unfold map_list. simpl. rewrite lookup_empty. split; [by intros []|].
      by intros ?%not_elem_of_nil. }
    destruct vals as [|v vals _] using rev_ind.
    { rewrite length_app in Hlen. simpl in Hlen. lia. }
    rewrite !length_app in Hlen. simpl in Hlen.
    assert (length keys = length vals) as Hlen' by lia.
    apply NoDup_app in Hnd as (Hnd & Hk & _).
    destruct (IH Hnd vals Hlen') as [IH1 IH2].
    rewrite map_list_snoc by done. split.
    - apply lookups_Some. apply Forall2_app.
      + apply lookups_Some in IH1.
        apply Forall2_same_length_lookup_2; [done|].
        intros i k' v' Hk' Hv'.
        rewrite lookup_insert_ne;
          [exact (Forall2_lookup_lr _ _ _ _ _ _ IH1 Hk' Hv')|].
        intros <-. apply (Hk k); [by eapply list_elem_of_lookup_2|by left].
      + constructor; [|constructor]. by rewrite lookup_insert_eq.
    - intros k'. rewrite lookup_insert_is_Some', IH2, elem_of_app,
        list_elem_of_singleton. naive_solver. }
  split_and!; [done| |done|].
  - unfold selector. rewrite decide_True by done. by rewrite Hl.
  - intros more. unfold map_list. f_equal.
    clear -Hlen. revert vals Hlen.
    induction keys as [|k keys IH]; intros [|v vals] Hlen; simpl in *;
      try done.
    f_equal. apply IH. lia.
Qed.

Lemma map_list_selector_witness :
  selector (W:=unit) [Str "a"; Str "b"]
    (map_list [Str "a"; Str "b"] [VNum 1; VNum 2]) "list"
  = Some (RList [VNum 1; VNum 2])
  ∧ map_list [Str "a"; Str "b"] [VNum 1; VNum 2; VNum 3]
    = map_list [Str "a"; Str "b"] [VNum 1; VNum 2].
Proof.
  destruct (map_list_selector [Str "a"; Str "b"] [VNum 1; VNum 2])
    as (_ & Hs & _ & Hm).
  - repeat constructor; set_solver.
  - reflexivity.
  - split; [exact Hs|exact (Hm [VNum 3])].
Defined.

(** X12.  [selector] with [allow_miss] never raises [KeyError]: it
    selects the keys that are in the dictionary, in their order, so as a
    list it gives the values of the keys that are present; without
    [allow_miss] it is the [selector] that raises on a missing key. *)
Theorem selector_allow_miss_spec {W} keys (dictionary : gmap node_id value)
    output_type :
  selector_allow_miss (W:=W) keys dictionary output_type false
  = selector keys dictionary output_type
  ∧ is_Some (selector_allow_miss (W:=W) keys dictionary output_type true)
  ∧ selector_allow_miss (W:=W) keys dictionary "list" true
    = Some (RList (omap (λ k, dictionary !! k) keys))
  ∧ selector_allow_miss (W:=W) keys dictionary output_type true
    = selector (filter (λ k, is_Some (dictionary !! k)) keys) dictionary
        output_type.
Proof.
  assert (filter (λ k : node_id, true = true) keys = keys) as Hall.
  { induction keys as [|k keys IH]; [done|].
    rewrite filter_cons_True by done. by rewrite IH. }
  assert (filter (λ k, bool_decide (is_Some (dictionary !! k)) = true) keys
          = filter (λ k, is_Some (dictionary !! k)) keys) as Hf.
  { apply list_filter_iff. intros k. by rewrite bool_decide_eq_true. }
  assert (lookups (filter (λ k, is_Some (dictionary !! k)) keys) dictionary
          = Some (omap (λ k, dictionary !! k) keys)) as Hl.
  { clear Hall Hf. unfold lookups.
    induction keys as [|k keys IH]; [done|]. simpl.
    destruct (dictionary !! k) as [v|] eqn:Hk.
    - rewrite filter_cons_True by (by rewrite Hk). simpl.
      rewrite Hk. simpl. by rewrite IH.
    - rewrite filter_cons_False; [done|]. rewrite Hk. by intros []. }
  unfold selector_allow_miss, selector. cbv zeta. split_and!.
  - by rewrite Hall.
  - rewrite Hf, Hl. by repeat case_decide.
  - rewrite Hf, Hl. by rewrite decide_True.
  - by rewrite Hf.
Qed.


(** ** Wrapped functions *)

(** X14.  [parent_func] gives the function under the [partial] and
    [add_args] wrappers; an input position is moved right by the number of
    arguments every [partial] binds and left by the [n] of every
    [add_args].  Under a [parse_args] wrapper the function is found only
    when no input position is asked: with one, the call raises
    [AttributeError], since a [parse_args] has no [n]. *)
Theorem parent_func_spec func :
  parent_func func None = Found (innermost func, None)
  ∧ ∀ i, parent_func func (Some i)
         = if has_parse_args func then AttributeError "n"
           else Found (innermost func, Some (i + shift func)%Z).
Proof.
  split.
  - induction func as [nm|f IH args|f IH n|f IH m]; simpl; done.
  - induction func as [nm|f IH args|f IH n|f IH m]; intros i; simpl.
    + by rewrite Z.add_0_r.
    + rewrite IH. destruct (has_parse_args f); [done|]. do 3 f_equal. lia.
    + rewrite IH. destruct (has_parse_args f); [done|]. do 3 f_equal. lia.
    + done.
Qed.

(** ** The keyword checks of [SubDispatchFunction] *)

Lemma check_kwargs_spec_witness :
  check_kwargs (W:=unit) example_dsp (map_list [Str "a"] [VNum 1])
    [(Str "zzz", VNum 3)]
  = Some (TypeError_unexpected_keyword "Dispatcher" (Str "zzz"))
  ∧ check_kwargs (W:=unit) example_dsp (map_list [Str "a"] [VNum 1])
      [(Str "b", VNum 3); (Str "a", VNum 2)]
    = Some (TypeError_multiple_values "Dispatcher" (Str "a")).
Proof.
  split.
  - destruct (check_kwargs_spec (W:=unit) example_dsp
                (map_list [Str "a"] [VNum 1]) [(Str "zzz", VNum 3)])
      as (_ & H & _).
    { intros k ->%list_elem_of_singleton. reflexivity. }
    destruct H as (i & Hc & Hi & _).
    { intros k ->%list_elem_of_singleton. vm_compute. reflexivity. }
    { exists (Str "zzz"). split; [by left|vm_compute; reflexivity]. }
    apply list_elem_of_singleton in Hi as ->. exact Hc.
  - destruct (check_kwargs_spec (W:=unit) example_dsp
                (map_list [Str "a"] [VNum 1])
                [(Str "b", VNum 3); (Str "a", VNum 2)])
      as (H & _).
    { intros k [->| ->%list_elem_of_singleton]%elem_of_cons; reflexivity. }
    destruct H as (i & Hc & Hi & Hin).
    { exists (Str "a"). split; [by right; left|by vm_compute; eexists]. }
    simpl in Hi.
    apply elem_of_cons in Hi as [->|Hi].
    { vm_compute in Hin. by destruct Hin. }
    apply list_elem_of_singleton in Hi as ->. exact Hc.
Defined.

(** ** [map_dict]

    The dictionary comprehension of [map_dict] goes through the items in
    the order of the dictionary, and a later item wins when two keys are
    renamed to the same key: here a dictionary is the list of its items in
    insertion order. *)

Abbreviation items := (list (node_id * value)).













